(** * Block processing and the RPC concatenation codecs of dcrd

    Shallow embedding of
    - [blockchain/process.go]: [BehaviorFlags] and [ProcessBlock];
    - the [dcrjson] test file for the concatenated hash and vote-bits codecs
      (test vectors and the expectations of the four test functions).

    Bytes are [Byte.byte], Go strings are [string], [uint16] and [int64]
    values are [N] and [Z] with their ranges stated where they matter, the
    block index is a [gmap] from block hashes to index entries.  Mutexes,
    logging and timing of [ProcessBlock] have no effect on the values studied
    here and are left out: every call is modelled as running alone. *)

From Stdlib Require Import ZArith NArith List Ascii String Lia Bool.
From Stdlib Require Import Strings.Byte.
From stdpp Require Import gmap strings list.

Import ListNotations.

(** ** encoding/hex *)

Module Hex.

(** [hextable], indexed by a nibble. *)
Definition hextable : list ascii :=
  list_ascii_of_string "0123456789abcdef".

Definition hexdigit (n : N) : ascii :=
  nth (N.to_nat n) hextable "0"%char.

(** [hex.EncodeToString]: two digits per byte, high nibble first. *)
Fixpoint EncodeToString (src : list byte) : string :=
  match src with
  | [] => EmptyString
  | b :: rest =>
      let v := Byte.to_N b in
      String (hexdigit (N.shiftr v 4))
        (String (hexdigit (N.land v 15)) (EncodeToString rest))
  end.

(** [fromHexChar]: digits and both cases of a..f. *)
Definition fromHexChar (c : ascii) : option N :=
  let n := N_of_ascii c in
  if (48 <=? n)%N && (n <=? 57)%N then Some (n - 48)%N
  else if (97 <=? n)%N && (n <=? 102)%N then Some (n - 97 + 10)%N
  else if (65 <=? n)%N && (n <=? 70)%N then Some (n - 65 + 10)%N
  else None.

(** [hex.DecodeString]; [None] stands for [InvalidByteError] and
    [ErrLength] alike (the callers only test [err != nil]). *)
Fixpoint DecodeString (s : string) : option (list byte) :=
  match s with
  | EmptyString => Some []
  | String _ EmptyString => None
  | String a (String b rest) =>
      match fromHexChar a, fromHexChar b with
      | Some hi, Some lo =>
          match Byte.of_N (N.lor (N.shiftl hi 4) lo), DecodeString rest with
          | Some x, Some r => Some (x :: r)
          | _, _ => None
          end
      | _, _ => None
      end
  end.

End Hex.

(** ** chainhash *)

#[global] Instance byte_eq_dec : EqDecision byte := Byte.byte_eq_dec.

#[global] Instance byte_countable : Countable byte :=
  inj_countable Byte.to_N Byte.of_N Byte.of_to_N.

(** [chainhash.Hash] is [[HashSize]byte]; the array length is kept as the
    predicate [wfHash]. *)
Abbreviation Hash := (list byte).

Module Chainhash.

(** [chainhash.HashSize]. *)
Definition HashSize : nat := 32.

Definition wfHash (h : Hash) : Prop := length h = HashSize.

(** [chainhash.NewHash]: fails unless exactly [HashSize] bytes are given. *)
Definition NewHash (bs : list byte) : option Hash :=
  if Nat.eqb (length bs) HashSize then Some bs else None.

(** [Hash.String]: the hex encoding of the bytes in reverse order. *)
Definition HashString (h : Hash) : string := Hex.EncodeToString (rev h).

End Chainhash.

(** ** The concatenated-hash and vote-bits codecs of dcrjson *)

Module Codec.
Export Chainhash.

Inductive CodecError : Type :=
| ErrHexDecode            (* hex.DecodeString failed *)
| ErrHashLength           (* input is not a whole number of hashes *)
| ErrInvalidLengthByte    (* record length below the two Bits bytes *)
| ErrShortRead            (* record runs past the end of the input *)
| ErrExtendedBitsTooLong. (* ExtendedBits above the allowed size *)

(** Modelled from the spec: [dcrjson.EncodeConcatenatedHashes] is not among
    the sources (only its tests are).  Each hash is written as its raw bytes,
    in order, without separators, and the whole is hex encoded. *)
Definition EncodeConcatenatedHashes (hashSlice : list Hash)
  : CodecError + string :=
  inr (Hex.EncodeToString (concat hashSlice)).

(** Cut a byte sequence into [HashSize]-byte pieces; [fuel] bounds the
    number of pieces. *)
Fixpoint splitHashes (fuel : nat) (bs : list byte) : list Hash :=
  match fuel with
  | O => []
  | S fuel' =>
      match bs with
      | [] => []
      | _ :: _ => firstn HashSize bs :: splitHashes fuel' (skipn HashSize bs)
      end
  end.

(** Modelled from the spec: [dcrjson.DecodeConcatenatedHashes] is not among
    the sources.  The string must be the hex encoding of a whole number of
    fixed-width hashes. *)
Definition DecodeConcatenatedHashes (hashes : string)
  : CodecError + list Hash :=
  match Hex.DecodeString hashes with
  | None => inl ErrHexDecode
  | Some bs =>
      if Nat.eqb (length bs mod HashSize) 0
      then inr (splitHashes (length bs) bs)
      else inl ErrHashLength
  end.

(** *** Vote bits *)

(** [stake.VoteBits]; [Bits] is a [uint16]. *)
Record VoteBits : Type := { Bits : N; ExtendedBits : list byte }.

#[global] Instance VoteBits_eq_dec : EqDecision VoteBits.
Proof. solve_decision. Defined.

Definition wfBits (vb : VoteBits) : Prop := (Bits vb < 65536)%N.

(** Modelled from the spec: [stake.MaxSingleBytePushLength] is not among the
    sources; it is the largest script push with a one-byte length, and the
    vote bits with their extension must fit in one such push, so that the
    74 extended bytes of [TestEncodeConcatenatedVoteBits] are too long. *)
Definition MaxSingleBytePushLength : nat := 75.
Definition maxExtendedBits : nat := MaxSingleBytePushLength - 2.

(** A record that fits its Go type and the size limit of the encoder. *)
Definition wfVoteBits (vb : VoteBits) : Prop :=
  wfBits vb /\ length (ExtendedBits vb) <= maxExtendedBits.

(** Conversion to [uint8]. *)
Definition byteOfN (n : N) : byte :=
  match Byte.of_N (n mod 256) with Some b => b | None => x00 end.

(** Little-endian integers of [w] bytes ([binary.LittleEndian]). *)
Fixpoint putLE (w : nat) (v : N) : list byte :=
  match w with
  | O => []
  | S w' => byteOfN v :: putLE w' (v / 256)
  end.

Fixpoint getLE (bs : list byte) : N :=
  match bs with
  | [] => 0
  | b :: rest => (Byte.to_N b + 256 * getLE rest)%N
  end.

(** One record: total length of what follows the prefix, the [Bits], the
    [ExtendedBits]; [w] is the width of the length prefix. *)
Definition encodeRecord (w : nat) (vb : VoteBits) : list byte :=
  putLE w (2 + N.of_nat (length (ExtendedBits vb)))
    ++ putLE 2 (Bits vb) ++ ExtendedBits vb.

Definition encodeVoteBitsWith (w : nat) (voteBitsSlice : list VoteBits)
  : CodecError + string :=
  if forallb (fun vb => length (ExtendedBits vb) <=? maxExtendedBits)
       voteBitsSlice
  then inr (Hex.EncodeToString (concat (map (encodeRecord w) voteBitsSlice)))
  else inl ErrExtendedBitsTooLong.

(** The records of a byte sequence, read front to back.  Every round
    consumes at least the prefix, so [fuel = length bs] is never used up
    when [1 <= w]. *)
Fixpoint decodeRecords (w fuel : nat) (bs : list byte)
  : CodecError + list VoteBits :=
  match bs with
  | [] => inr []
  | _ :: _ =>
      match fuel with
      | O => inl ErrShortRead
      | S fuel' =>
          if length bs <? w then inl ErrShortRead
          else
            let len := N.to_nat (getLE (firstn w bs)) in
            let body := skipn w bs in
            if len <? 2 then inl ErrInvalidLengthByte
            else if length body <? len then inl ErrShortRead
            else
              match decodeRecords w fuel' (skipn len body) with
              | inl e => inl e
              | inr rest =>
                  inr ({| Bits := getLE (firstn 2 body);
                          ExtendedBits := firstn (len - 2) (skipn 2 body) |}
                         :: rest)
              end
      end
  end.

Definition decodeVoteBitsWith (w : nat) (voteBitsString : string)
  : CodecError + list VoteBits :=
  match Hex.DecodeString voteBitsString with
  | None => inl ErrHexDecode
  | Some bs => decodeRecords w (length bs) bs
  end.

(** The bytes of a list of records under the one-byte prefix. *)
Definition encodeAll (l : list VoteBits) : list byte :=
  concat (map (encodeRecord 1) l).

(** The layout in the words of the spec: a two-byte little-endian length
    prefix. *)
Definition EncodeConcatenatedVoteBits_spec := encodeVoteBitsWith 2.
Definition DecodeConcatenatedVoteBits_spec := decodeVoteBitsWith 2.

(** Modelled from the spec: [dcrjson.EncodeConcatenatedVoteBits] and
    [dcrjson.DecodeConcatenatedVoteBits] are not among the sources.  The
    record layout is the one of the spec's codec contract, except for the
    width of the length prefix, which the expected bytes of
    [TestEncodeConcatenatedVoteBits] and the input of
    [TestDecodeConcatenatedVoteBits] fix to a single byte. *)
Definition EncodeConcatenatedVoteBits := encodeVoteBitsWith 1.
Definition DecodeConcatenatedVoteBits := decodeVoteBitsWith 1.

End Codec.

(** ** The dcrjson tests, as predicates on the functions under test *)

Module CodecTest.
Import Codec.

Definition isErr {E A : Type} (r : E + A) : bool :=
  match r with inl _ => true | inr _ => false end.

(** Modelled from the spec: [chainhash.NewHashFromStr] is not among the
    sources; as the comment of [TestEncodeConcatenatedHashes] says, a hash
    string is the hex encoding of the hash bytes in reverse order. *)
Definition decodeHash (reversedHash : string) : option Hash :=
  match Hex.DecodeString reversedHash with
  | Some bs => NewHash (rev bs)
  | None => None
  end.

Definition hashes : list string :=
  [ "80d9212bf4ceb066ded2866b39d4ed89e0ab60f335c11df8e7bf85d9c35c8e29";
    "b926d1870d6f88760a8b10db0d4439e5cd74f3827fd4b6827443000000000000";
    "badcb8e5c1e895e8e8fef8d3425fa0bfe9d28fdbf72f871910c4000000000000";
    "f51cbd277f632f5996eca05d48b0a357d74d42f4a0513f3eac08010000000000" ].

(** The four hashes of [hashes] as byte arrays. *)
Definition testHashes : list Hash :=
  default [] (mapM Hex.DecodeString hashes).

(** One round of the loop of [TestEncodeConcatenatedHashes]. *)
Definition encodeHashesRound (enc : list Hash -> CodecError + string)
    (j : nat) : bool :=
  let hashSubset := firstn j hashes in
  let concatenatedHashes := String.concat "" hashSubset in
  let testHashes :=
    mapM (fun s => match Hex.DecodeString s with
                   | Some hashBytes => NewHash hashBytes
                   | None => None
                   end) hashSubset in
  match testHashes with
  | None => false
  | Some hs =>
      match enc hs with
      | inr concatenated => bool_decide (concatenated = concatenatedHashes)
      | inl _ => false
      end
  end.

Definition TestEncodeConcatenatedHashes
    (enc : list Hash -> CodecError + string) : bool :=
  forallb (encodeHashesRound enc) (seq 0 (length hashes + 1)).

Definition TestDecodeConcatenatedHashes
    (dec : string -> CodecError + list Hash) : bool :=
  match mapM decodeHash
          [ "298e5cc3d985bfe7f81dc135f360abe089edd4396b86d2de66b0cef42b21d980";
            "000000000000437482b6d47f82f374cde539440ddb108b0a76886f0d87d126b9";
            "000000000000c41019872ff7db8fd2e9bfa05f42d3f8fee8e895e8c1e5b8dcba" ]
  with
  | None => false
  | Some testHashes =>
      let concatenatedHashes := Hex.EncodeToString (concat testHashes) in
      match dec concatenatedHashes with
      | inr decodedHashes => bool_decide (decodedHashes = testHashes)
      | inl _ => false
      end
  end.

Definition testVbs : list VoteBits :=
  [ {| Bits := 0; ExtendedBits := [] |};
    {| Bits := 0; ExtendedBits := [x00] |};
    {| Bits := 0x1223; ExtendedBits := [x01; x02; x03; x04] |};
    {| Bits := 0xaaaa; ExtendedBits := [x01; x02; x03; x04; x05] |} ].

Definition expectedEncoded : list byte :=
  [ x02; x00; x00; x03;
    x00; x00; x00; x06;
    x23; x12; x01; x02;
    x03; x04; x07; xaa;
    xaa; x01; x02; x03;
    x04; x05 ].

Definition tooLongVbs : list VoteBits :=
  [ {| Bits := 0; ExtendedBits := repeat x00 74 |} ].

Definition TestEncodeConcatenatedVoteBits
    (enc : list VoteBits -> CodecError + string) : bool :=
  match enc testVbs with
  | inl _ => false
  | inr encodedResults =>
      bool_decide (Hex.DecodeString encodedResults = Some expectedEncoded)
      && isErr (enc tooLongVbs)
  end.

Definition encodedBytes : list byte :=
  [ x03; x00; x00; x00;
    x06; x23; x12; x01;
    x02; x03; x04; x07;
    xaa; xaa; x01; x02;
    x03; x04; x05 ].

Definition expectedVbs : list VoteBits :=
  [ {| Bits := 0; ExtendedBits := [x00] |};
    {| Bits := 0x1223; ExtendedBits := [x01; x02; x03; x04] |};
    {| Bits := 0xaaaa; ExtendedBits := [x01; x02; x03; x04; x05] |} ].

Definition shortRead : list byte := removelast encodedBytes.
Definition tooLongRead : list byte := encodedBytes ++ [x06].
Definition invalidLength : list byte := x01 :: tl tooLongRead.

Definition TestDecodeConcatenatedVoteBits
    (dec : string -> CodecError + list VoteBits) : bool :=
  match dec (Hex.EncodeToString encodedBytes) with
  | inl _ => false
  | inr decodedSlice =>
      bool_decide (decodedSlice = expectedVbs)
      && isErr (dec (Hex.EncodeToString shortRead))
      && isErr (dec (Hex.EncodeToString tooLongRead))
      && isErr (dec (Hex.EncodeToString invalidLength))
  end.

End CodecTest.

(** ** blockchain/process.go *)

Module Blockchain.
Export Chainhash.

(** [BehaviorFlags] is a [uint32] bitmask. *)
Definition BehaviorFlags : Type := N.

(** [1 << iota] for the first two constants of the block, then [0]. *)
Definition BFFastAdd : BehaviorFlags := N.shiftl 1 0.
Definition BFNoPoWCheck : BehaviorFlags := N.shiftl 1 1.
Definition BFNone : BehaviorFlags := 0%N.

(** The two error codes [ProcessBlock] raises itself; [ErrOtherRule]
    stands for the rest of the enumeration. *)
Inductive ErrorCode : Type :=
| ErrDuplicateBlock
| ErrMissingParent
| ErrOtherRule (code : N).

(** A Go [error] value that is not [nil]: a [RuleError] or anything else. *)
Inductive error : Type :=
| RuleError (ErrorCode : ErrorCode) (Description : string)
| InternalError (Description : string).

Definition ruleError (c : ErrorCode) (desc : string) : error :=
  RuleError c desc.

(** The header fields this file reads. *)
Record BlockHeader : Type :=
  { PrevBlock : Hash; Bits : N; Height : Z }.

Record MsgBlock : Type :=
  { Header : BlockHeader; Transactions : list (list byte) }.

(** [dcrutil.Block]: the message and its cached hash. *)
Record Block : Type := { msgBlock : MsgBlock; blockHash : Hash }.

#[global] Instance ErrorCode_eq_dec : EqDecision ErrorCode.
Proof. solve_decision. Defined.
#[global] Instance error_eq_dec : EqDecision error.
Proof. solve_decision. Defined.

(** Modelled from the spec: the block index entry (section 3): hash, parent
    hash, height, cumulative work and chain membership. *)
Record blockNode : Type :=
  { nodeHash : Hash; parentHash : Hash; height : Z; workSum : Z;
    inMainChain : bool }.

Definition setMainChain (m : bool) (n : blockNode) : blockNode :=
  {| nodeHash := nodeHash n; parentHash := parentHash n;
     height := height n; workSum := workSum n; inMainChain := m |}.

(** Go's [(int64, error)]; [None] is [nil]. *)
Definition Result : Type := Z * option error.

(** The calls [ProcessBlock] makes, in the order they happen. *)
Inductive Event : Type :=
| EvHaveBlock (h : Hash)
| EvCheckBlockSanityContextFree (block : Block) (flags : BehaviorFlags)
| EvIsTreasuryAgendaActiveByHash (h : Hash)
| EvCheckBlockSanityContextual (block : Block) (flags : BehaviorFlags)
    (isTreasuryEnabled : bool)
| EvMaybeAcceptBlock (block : Block) (flags : BehaviorFlags).

Section Chain.
Context {TimeSource Params : Type}.

(** The fields of [BlockChain] that [ProcessBlock] touches. *)
Record BlockChain : Type :=
  { index : gmap Hash blockNode;
    bestTip : Hash;
    timeSource : TimeSource;
    chainParams : Params }.

Definition withChain (b : BlockChain) (idx : gmap Hash blockNode)
    (tip : Hash) : BlockChain :=
  {| index := idx; bestTip := tip;
     timeSource := timeSource b; chainParams := chainParams b |}.

(** Modelled from the spec: [blockIndex.HaveBlock] is not among the
    sources; it is the membership test [has] of section 4.1, over all
    known blocks of the main chain and of side chains. *)
Definition HaveBlock (idx : gmap Hash blockNode) (h : Hash) : bool :=
  bool_decide (is_Some (idx !! h)).

(** *** The Chain Acceptor *)

(** Modelled from the spec: [insert] of section 4.1 never overwrites an
    entry. *)
Definition addNode (n : blockNode) (idx : gmap Hash blockNode)
  : gmap Hash blockNode :=
  match idx !! nodeHash n with
  | Some _ => idx
  | None => <[nodeHash n := n]> idx
  end.

(** The hashes from [h] back along the parent links, [h] first. *)
Fixpoint pathToRoot (fuel : nat) (idx : gmap Hash blockNode) (h : Hash)
  : list Hash :=
  match fuel with
  | O => []
  | S fuel' =>
      match idx !! h with
      | None => []
      | Some n => h :: pathToRoot fuel' idx (parentHash n)
      end
  end.

Definition chainOf (idx : gmap Hash blockNode) (h : Hash) : list Hash :=
  pathToRoot (size idx) idx h.

(** Modelled from the spec: the common ancestor is where the parent
    links of the two chains meet (section 4.4). *)
Definition commonAncestor (idx : gmap Hash blockNode) (old new : Hash)
  : option Hash :=
  List.find (fun h => bool_decide (h ∈ chainOf idx old)) (chainOf idx new).

(** The part of a chain strictly above [fork], tip first. *)
Fixpoint aboveFork (fork : Hash) (chain : list Hash) : list Hash :=
  match chain with
  | [] => []
  | h :: rest =>
      if bool_decide (h = fork) then [] else h :: aboveFork fork rest
  end.

Definition markAll (m : bool) (hs : list Hash)
    (idx : gmap Hash blockNode) : gmap Hash blockNode :=
  foldl (fun acc h => alter (setMainChain m) h acc) idx hs.

(** Modelled from the spec: [reparent_subtree] of sections 4.1 and 4.4:
    demote the old chain above the fork from its tip down, then promote
    the new one from the fork up. *)
Definition reorganizeChain (idx : gmap Hash blockNode)
    (fork oldTip newTip : Hash) : gmap Hash blockNode :=
  markAll true (rev (aboveFork fork (chainOf idx newTip)))
    (markAll false (aboveFork fork (chainOf idx oldTip)) idx).

(** The fork length of section 4.4: height of the new tip minus height
    of the common ancestor. *)
Definition forkDistance (idx : gmap Hash blockNode) (n : blockNode)
    (fork : Hash) : Z :=
  match idx !! fork with
  | Some f => height n - height f
  | None => height n
  end.

(** The index entry of a new block under its parent: one higher, with
    the work of the block added to the work of the chain below it. *)
Definition newBlockNode (CalcWork : N -> Z) (parent : blockNode)
    (block : Block) : blockNode :=
  let header := Header (msgBlock block) in
  {| nodeHash := blockHash block;
     parentHash := PrevBlock header;
     height := height parent + 1;
     workSum := workSum parent + CalcWork (Bits header);
     inMainChain := false |}.

(** Modelled from the spec: [maybeAcceptBlock] is not among the sources.
    This is the Chain Acceptor of section 4.4: fork length 0 for a block
    that extends the best chain; for a reorganization and for a block on a
    side chain, the height of the new block minus the height of the common
    ancestor.  [CalcWork] gives the work of one block from the difficulty
    bits of its header. *)
Definition chainAcceptor (CalcWork : N -> Z) (block : Block)
    (flags : BehaviorFlags) (b : BlockChain) : Result * BlockChain :=
  let prevHash := PrevBlock (Header (msgBlock block)) in
  match index b !! prevHash, index b !! bestTip b with
  | Some parent, Some tip =>
      let newNode := newBlockNode CalcWork parent block in
      if bool_decide (prevHash = bestTip b) then
        ((0, None),
         withChain b (addNode (setMainChain true newNode) (index b))
           (blockHash block))
      else
        match commonAncestor (index b) (bestTip b) prevHash with
        | None =>
            ((0, Some (InternalError "no common ancestor")), b)
        | Some fork =>
            let idx := addNode newNode (index b) in
            if workSum tip <? workSum newNode then
              ((forkDistance idx newNode fork, None),
               withChain b
                 (reorganizeChain idx fork (bestTip b) (blockHash block))
                 (blockHash block))
            else
              ((forkDistance idx newNode fork, None),
               withChain b idx (bestTip b))
        end
  | _, _ => ((0, Some (InternalError "block index is inconsistent")), b)
  end%Z.

(** *** The Process Coordinator *)

(** The functions [ProcessBlock] calls that are not among the sources. *)
Class Collaborators : Type :=
  { checkBlockSanityContextFree :
      Block -> TimeSource -> BehaviorFlags -> Params -> option error;
    isTreasuryAgendaActiveByHash : BlockChain -> Hash -> error + bool;
    checkBlockSanityContextual :
      Block -> TimeSource -> BehaviorFlags -> Params -> bool ->
      option error;
    maybeAcceptBlock :
      Block -> BehaviorFlags -> BlockChain -> Result * BlockChain }.

(** A stretch of the body of [ProcessBlock]: it either returns from the
    function ([inl]) or goes on with a value ([inr]), and logs the calls
    it made. *)
Definition Step (A : Type) : Type :=
  BlockChain -> (Result + A) * BlockChain * list Event.

Definition next {A : Type} (a : A) : Step A :=
  fun b => (inr a, b, []).

Definition Return {A : Type} (r : Result) : Step A :=
  fun b => (inl r, b, []).

Definition bind {A B : Type} (m : Step A) (k : A -> Step B) : Step B :=
  fun b =>
    match m b with
    | (inl r, b', t) => (inl r, b', t)
    | (inr a, b', t) =>
        match k a b' with
        | (x, b'', t') => (x, b'', t ++ t')
        end
    end.

(** A call that reads the chain state. *)
Definition call {A : Type} (ev : Event) (f : BlockChain -> A) : Step A :=
  fun b => (inr (f b), b, [ev]).

(** A call that may change the chain state. *)
Definition callMut {A : Type} (ev : Event)
    (f : BlockChain -> A * BlockChain) : Step A :=
  fun b => match f b with (a, b') => (inr a, b', [ev]) end.

(** [if cond { return r }]. *)
Definition returnIf (cond : bool) (r : Result) : Step unit :=
  if cond then Return r else next tt.

(** [if err != nil { return 0, err }]. *)
Definition returnIfErr (err : option error) : Step unit :=
  match err with
  | Some e => Return (0%Z, Some e)
  | None => next tt
  end.

Definition run (m : Step Result) (b : BlockChain)
  : Result * BlockChain * list Event :=
  match m b with
  | (inl r, b', t) => (r, b', t)
  | (inr r, b', t) => (r, b', t)
  end.

Notation "x <- m ;; k" := (bind m (fun x => k))
  (at level 100, m at next level, right associativity).
Notation "m ;;; k" := (bind m (fun _ => k))
  (at level 100, right associativity).

Context `{Collaborators}.

Definition ProcessBlock (block : Block) (flags : BehaviorFlags)
  : BlockChain -> Result * BlockChain * list Event :=
  run (
    let blockHash := blockHash block in

    (* The block must not already exist in the main chain or side
       chains. *)
    have <- call (EvHaveBlock blockHash)
              (fun b => HaveBlock (index b) blockHash) ;;
    returnIf have
      (0%Z, Some (ruleError ErrDuplicateBlock
                    ("already have block " +:+ HashString blockHash))) ;;;

    (* Perform preliminary sanity checks on the block and its
       transactions. *)
    err <- call (EvCheckBlockSanityContextFree block flags)
             (fun b => checkBlockSanityContextFree block (timeSource b)
                         flags (chainParams b)) ;;
    returnIfErr err ;;;

    (* This function should never be called with orphans or the genesis
       block. *)
    let blockHeader := Header (msgBlock block) in
    let prevHash := PrevBlock blockHeader in
    have <- call (EvHaveBlock prevHash)
              (fun b => HaveBlock (index b) prevHash) ;;
    returnIf (negb have)
      (0%Z, Some (ruleError ErrMissingParent
                    ("previous block " +:+ HashString prevHash
                       +:+ " is not known"))) ;;;

    (* Sanity checks that depend on the state of the treasury agenda. *)
    res <- call (EvIsTreasuryAgendaActiveByHash prevHash)
             (fun b => isTreasuryAgendaActiveByHash b prevHash) ;;
    match res with
    | inl e => Return (0%Z, Some e)
    | inr isTreasuryEnabled =>
        err <- call (EvCheckBlockSanityContextual block flags
                       isTreasuryEnabled)
                 (fun b => checkBlockSanityContextual block (timeSource b)
                             flags (chainParams b) isTreasuryEnabled) ;;
        returnIfErr err ;;;

        (* The block has passed all context independent checks and
           appears sane enough to potentially accept it into the block
           chain. *)
        r <- callMut (EvMaybeAcceptBlock block flags)
               (maybeAcceptBlock block flags) ;;
        match r with
        | (_, Some e) => Return (0%Z, Some e)
        | (forkLen, None) => Return (forkLen, None)
        end
    end).

(** The collaborators [c] with the Chain Acceptor as
    [maybeAcceptBlock]. *)
Definition withChainAcceptor (CalcWork : N -> Z) (c : Collaborators)
  : Collaborators :=
  {| checkBlockSanityContextFree := @checkBlockSanityContextFree c;
     isTreasuryAgendaActiveByHash := @isTreasuryAgendaActiveByHash c;
     checkBlockSanityContextual := @checkBlockSanityContextual c;
     maybeAcceptBlock := chainAcceptor CalcWork |}.

(** The two errors [ProcessBlock] builds itself. *)
Definition duplicateBlockError (block : Block) : error :=
  ruleError ErrDuplicateBlock
    ("already have block " +:+ HashString (blockHash block)).

Definition missingParentError (block : Block) : error :=
  ruleError ErrMissingParent
    ("previous block "
       +:+ HashString (PrevBlock (Header (msgBlock block)))
       +:+ " is not known").

(** The three parts of what [ProcessBlock] yields. *)
Definition returned (x : Result * BlockChain * list Event) : Result :=
  fst (fst x).
Definition chainAfter (x : Result * BlockChain * list Event)
  : BlockChain := snd (fst x).
Definition calls (x : Result * BlockChain * list Event) : list Event :=
  snd x.

(** The calls of a run of [ProcessBlock] that gets through every step,
    with [v] the agenda flag. *)
Definition allCalls (block : Block) (flags : BehaviorFlags) (v : bool)
  : list Event :=
  let prevHash := PrevBlock (Header (msgBlock block)) in
  [ EvHaveBlock (blockHash block);
    EvCheckBlockSanityContextFree block flags;
    EvHaveBlock prevHash;
    EvIsTreasuryAgendaActiveByHash prevHash;
    EvCheckBlockSanityContextual block flags v;
    EvMaybeAcceptBlock block flags ].

End Chain.

Arguments BlockChain : clear implicits.
Arguments Collaborators : clear implicits.
Arguments ProcessBlock {TimeSource Params} _ block flags _.

End Blockchain.

(** ** A small chain: A1, A2, A3 with the side branch B1, B2, B3 *)

Module Scenario.
Import Blockchain.

Definition mkHash (tag : byte) : Hash := tag :: repeat x00 31.

Definition A1 : Hash := mkHash xa1.
Definition A2 : Hash := mkHash xa2.
Definition A3 : Hash := mkHash xa3.
Definition B1 : Hash := mkHash xb1.
Definition B2 : Hash := mkHash xb2.
Definition B3 : Hash := mkHash xb3.
Definition zeroHash : Hash := repeat x00 32.

Definition mkBlock (h prev : Hash) (ht : Z) : Block :=
  {| msgBlock := {| Header := {| PrevBlock := prev; Bits := 10; Height := ht |};
                    Transactions := [] |};
     blockHash := h |}.

Definition blockA1 := mkBlock A1 zeroHash 1.
Definition blockA2 := mkBlock A2 A1 2.
Definition blockA3 := mkBlock A3 A2 3.
Definition blockB1 := mkBlock B1 A1 2.
Definition blockB2 := mkBlock B2 B1 3.
Definition blockB3 := mkBlock B3 B2 4.

(** A block whose parent is not known anywhere. *)
Definition orphan := mkBlock (mkHash xcc) (mkHash xdd) 9.

(** Every block has the work of its difficulty bits. *)
Definition CalcWork (bits : N) : Z := Z.of_N bits.

(** Collaborators that accept every block, with the agenda inactive. *)
Definition lenient : Collaborators unit unit :=
  {| checkBlockSanityContextFree := fun _ _ _ _ => None;
     isTreasuryAgendaActiveByHash := fun _ _ => inr false;
     checkBlockSanityContextual := fun _ _ _ _ _ => None;
     maybeAcceptBlock := chainAcceptor CalcWork |}.

(** Collaborators whose context-free check rejects every block. *)
Definition malformed : error := RuleError (ErrOtherRule 1) "malformed block".

Definition strict : Collaborators unit unit :=
  {| checkBlockSanityContextFree := fun _ _ _ _ => Some malformed;
     isTreasuryAgendaActiveByHash := fun _ _ => inr false;
     checkBlockSanityContextual := fun _ _ _ _ _ => None;
     maybeAcceptBlock := chainAcceptor CalcWork |}.

(** The chain that holds A1 alone. *)
Definition chain0 : BlockChain unit unit :=
  {| index := {[ A1 := {| nodeHash := A1; parentHash := zeroHash;
                          height := 1; workSum := 10;
                          inMainChain := true |} ]};
     bestTip := A1; timeSource := tt; chainParams := tt |}.

Definition after (block : Block) (b : BlockChain unit unit)
  : BlockChain unit unit :=
  chainAfter (ProcessBlock lenient block BFNone b).

(** A1, A2, A3 is the best chain; B1, B2 is a side branch from A1. *)
Definition chainAB : BlockChain unit unit :=
  after blockB2 (after blockB1 (after blockA3 (after blockA2 chain0))).


(** Collaborators whose acceptor moves the tip to the block and then fails,
    reporting a fork length along with its error. *)
Definition faulty : Collaborators unit unit :=
  {| checkBlockSanityContextFree := fun _ _ _ _ => None;
     isTreasuryAgendaActiveByHash := fun _ _ => inr true;
     checkBlockSanityContextual := fun _ _ _ _ _ => None;
     maybeAcceptBlock := fun block _ b =>
       ((7%Z, Some malformed), withChain b (index b) (blockHash block)) |}.

(** Collaborators that answer like [lenient] for the parent B2 of B3, but
    whose resolver reports the agenda active for every other hash and whose
    contextual check refuses every block under an active agenda. *)
Definition wary : Collaborators unit unit :=
  {| checkBlockSanityContextFree := fun _ _ _ _ => None;
     isTreasuryAgendaActiveByHash := fun _ h =>
       if bool_decide (h = B2) then inr false else inr true;
     checkBlockSanityContextual := fun _ _ _ _ v =>
       if v then Some malformed else None;
     maybeAcceptBlock := chainAcceptor CalcWork |}.

(** A block that names itself as its parent. *)
Definition selfParent : Block := mkBlock (mkHash xee) (mkHash xee) 5.

End Scenario.

(** * Properties *)

(** ** Hex encoding *)

Section HexFacts.
Import Hex.

Lemma hex_byte_roundtrip (b : byte) :
  let v := Byte.to_N b in
  fromHexChar (hexdigit (N.shiftr v 4)) = Some (N.shiftr v 4)
  /\ fromHexChar (hexdigit (N.land v 15)) = Some (N.land v 15)
  /\ Byte.of_N (N.lor (N.shiftl (N.shiftr v 4) 4) (N.land v 15)) = Some b.
Proof. destruct b; vm_compute; auto. Qed.

Lemma DecodeString_EncodeToString (bs : list byte) :
  DecodeString (EncodeToString bs) = Some bs.
Proof.
  induction bs as [|b bs IH]; [reflexivity|].
  destruct (hex_byte_roundtrip b) as (Hhi & Hlo & Hb).
  cbn [EncodeToString DecodeString].
  rewrite Hhi, Hlo, Hb, IH. reflexivity.
Qed.

Lemma EncodeToString_app (xs ys : list byte) :
  EncodeToString (xs ++ ys)
  = String.append (EncodeToString xs) (EncodeToString ys).
Proof.
  induction xs as [|x xs IH]; [reflexivity|].
  cbn [app EncodeToString String.append]. now rewrite IH.
Qed.

Lemma EncodeToString_concat (hs : list (list byte)) :
  EncodeToString (concat hs) = String.concat "" (map EncodeToString hs).
Proof.
  induction hs as [|h hs IH]; [reflexivity|].
  cbn [concat map]. rewrite EncodeToString_app, IH.
  destruct hs as [|h' hs]; cbn [map String.concat].
  - generalize (EncodeToString h). clear.
    induction s as [|c s IHs]; [reflexivity|].
    change (String c (s +:+ "") = String c s). now rewrite IHs.
  - reflexivity.
Qed.

End HexFacts.

(** ** The hash-list codec *)

Section HashCodecFacts.
Import Codec.

Lemma length_concat_hashes (hs : list Hash) :
  Forall wfHash hs -> length (concat hs) = HashSize * length hs.
Proof.
  induction 1 as [|h hs Hh _ IH]; [reflexivity|].
  cbn [concat]. rewrite length_app, IH, Hh. cbn [length]. lia.
Qed.

Lemma splitHashes_concat (hs : list Hash) (fuel : nat) :
  Forall wfHash hs -> length hs <= fuel ->
  splitHashes fuel (concat hs) = hs.
Proof.
  intros Hwf. revert fuel.
  induction Hwf as [|h hs Hh _ IH]; intros fuel Hfuel.
  - destruct fuel; reflexivity.
  - destruct fuel as [|fuel]; [cbn in Hfuel; lia|].
    cbn [concat splitHashes].
    destruct h as [|x h]; [discriminate Hh|].
    change ((x :: h) ++ concat hs) with ((x :: h) ++ concat hs).
    cbn [app].
    change (x :: h ++ concat hs) with ((x :: h) ++ concat hs).
    rewrite (take_app_length' (x :: h) (concat hs) HashSize) by (symmetry; exact Hh).
    rewrite (drop_app_length' (x :: h) (concat hs) HashSize) by (symmetry; exact Hh).
    rewrite IH by (cbn in Hfuel; lia). reflexivity.
Qed.

Lemma hashes_roundtrip (hs : list Hash) :
  Forall wfHash hs ->
  DecodeConcatenatedHashes (Hex.EncodeToString (concat hs)) = inr hs.
Proof.
  intros Hwf. unfold DecodeConcatenatedHashes.
  rewrite DecodeString_EncodeToString.
  rewrite (length_concat_hashes hs Hwf).
  replace ((HashSize * length hs) `mod` HashSize) with 0
    by (symmetry; rewrite Nat.mul_comm; apply Nat.Div0.mod_mul).
  cbn [Nat.eqb]. rewrite splitHashes_concat; [reflexivity|exact Hwf|].
  unfold HashSize. lia.
Qed.

End HashCodecFacts.

(** ** The vote-bits codec *)

Section VoteBitsCodecFacts.
Import Codec.

Lemma to_N_byteOfN (n : N) : Byte.to_N (byteOfN n) = (n mod 256)%N.
Proof.
  unfold byteOfN.
  destruct (Byte.of_N (n mod 256)) as [b|] eqn:E.
  - now apply Byte.to_of_N.
  - apply Byte.of_N_None_iff in E.
    pose proof (N.mod_upper_bound n 256). lia.
Qed.

Lemma getLE_putLE_2 (v : N) : (v < 65536)%N -> getLE (putLE 2 v) = v.
Proof.
  intros Hv. cbn [putLE getLE]. rewrite !to_N_byteOfN.
  rewrite (N.mod_small (v / 256) 256)
    by (apply N.Div0.div_lt_upper_bound; lia).
  pose proof (N.div_mod v 256). lia.
Qed.

(** One round of the decoder, with the one-byte prefix read. *)
Lemma decodeRecords_cons (p : byte) (body : list byte) (fuel : nat) :
  decodeRecords 1 (S fuel) (p :: body)
  = let len := N.to_nat (Byte.to_N p) in
    if len <? 2 then inl ErrInvalidLengthByte
    else if length body <? len then inl ErrShortRead
    else match decodeRecords 1 fuel (skipn len body) with
         | inl e => inl e
         | inr rest =>
             inr ({| Bits := getLE (firstn 2 body);
                     ExtendedBits := firstn (len - 2) (skipn 2 body) |}
                    :: rest)
         end.
Proof.
  cbn [decodeRecords length firstn skipn getLE Nat.ltb Nat.leb].
  rewrite N.mul_0_r, N.add_0_r. reflexivity.
Qed.

(** The decoder never runs out of fuel on an input no longer than it. *)
Lemma decodeRecords_fuel (f1 f2 : nat) (bs : list byte) :
  length bs <= f1 -> length bs <= f2 ->
  decodeRecords 1 f1 bs = decodeRecords 1 f2 bs.
Proof.
  revert f2 bs. induction f1 as [|f1 IH]; intros f2 bs H1 H2.
  - destruct bs; [|cbn in H1; lia]. destruct f2; reflexivity.
  - destruct bs as [|p body]; [destruct f2; reflexivity|].
    destruct f2 as [|f2]; [cbn in H2; lia|].
    rewrite !decodeRecords_cons. cbn zeta.
    destruct (_ <? 2); [reflexivity|].
    destruct (length body <? _); [reflexivity|].
    rewrite (IH f2); [reflexivity| |];
      rewrite length_drop; cbn in H1, H2; lia.
Qed.

Lemma encodeRecord_prefix (vb : VoteBits) :
  wfVoteBits vb ->
  exists p b0 b1,
    encodeRecord 1 vb = p :: b0 :: b1 :: ExtendedBits vb
    /\ N.to_nat (Byte.to_N p) = 2 + length (ExtendedBits vb)
    /\ getLE [b0; b1] = Bits vb.
Proof.
  intros [Hbits Hext]. unfold maxExtendedBits, MaxSingleBytePushLength in Hext.
  eexists _, _, _. split; [reflexivity|]. split.
  - rewrite to_N_byteOfN, N.mod_small by lia. lia.
  - apply (getLE_putLE_2 _ Hbits).
Qed.

Lemma decodeRecords_record (vb : VoteBits) (t : list byte) (fuel : nat) :
  wfVoteBits vb ->
  decodeRecords 1 (S fuel) (encodeRecord 1 vb ++ t)
  = match decodeRecords 1 fuel t with
    | inl e => inl e
    | inr rest => inr (vb :: rest)
    end.
Proof.
  intros Hwf. destruct (encodeRecord_prefix vb Hwf) as (p & b0 & b1 & -> & Hp & Hb).
  cbn [app]. rewrite decodeRecords_cons. cbn zeta. rewrite Hp.
  destruct vb as [bits ext]. cbn [ExtendedBits Bits] in *.
  replace (2 + length ext <? 2) with false by (symmetry; apply Nat.ltb_ge; lia).
  replace (length (b0 :: b1 :: ext ++ t) <? 2 + length ext) with false
    by (symmetry; apply Nat.ltb_ge; cbn [length]; rewrite length_app; lia).
  cbn [skipn firstn Nat.add].
  rewrite drop_app_length.
  replace (S (S (length ext)) - 2) with (length ext) by lia.
  rewrite take_0, drop_0, take_app_length.
  cbn [getLE] in Hb. cbn [getLE]. rewrite Hb. reflexivity.
Qed.

Lemma decodeRecords_app (l : list VoteBits) (t : list byte) (fuel : nat) :
  Forall wfVoteBits l ->
  length (encodeAll l ++ t) <= fuel ->
  decodeRecords 1 fuel (encodeAll l ++ t)
  = match decodeRecords 1 (length t) t with
    | inl e => inl e
    | inr rest => inr (l ++ rest)
    end.
Proof.
  intros Hwf. revert fuel.
  induction Hwf as [|vb l Hvb _ IH]; intros fuel Hfuel.
  - cbn [encodeAll map concat app] in *.
    rewrite (decodeRecords_fuel fuel (length t)) by lia.
    destruct (decodeRecords 1 (length t) t); reflexivity.
  - unfold encodeAll in *. cbn [map concat] in *.
    rewrite <- app_assoc in *.
    destruct (encodeRecord_prefix vb Hvb) as (p & b0 & b1 & E & _ & _).
    destruct fuel as [|fuel]; [rewrite E in Hfuel; cbn [app length] in Hfuel; lia|].
    rewrite decodeRecords_record by exact Hvb.
    rewrite IH.
    + destruct (decodeRecords 1 (length t) t); reflexivity.
    + rewrite E in Hfuel. cbn [app length] in Hfuel.
      rewrite !length_app in *. lia.
Qed.

Lemma EncodeConcatenatedVoteBits_ok (l : list VoteBits) :
  Forall wfVoteBits l ->
  EncodeConcatenatedVoteBits l = inr (Hex.EncodeToString (encodeAll l)).
Proof.
  intros Hwf. unfold EncodeConcatenatedVoteBits, encodeVoteBitsWith.
  replace (forallb _ l) with true; [reflexivity|].
  symmetry. apply forallb_forall. intros vb Hin.
  rewrite Forall_forall in Hwf. destruct (Hwf vb) as [_ Hext].
  - now apply list_elem_of_In.
  - now apply Nat.leb_le.
Qed.

Lemma DecodeConcatenatedVoteBits_bytes (bs : list byte) :
  DecodeConcatenatedVoteBits (Hex.EncodeToString bs)
  = decodeRecords 1 (length bs) bs.
Proof.
  unfold DecodeConcatenatedVoteBits, decodeVoteBitsWith.
  now rewrite DecodeString_EncodeToString.
Qed.

End VoteBitsCodecFacts.

Section VoteBitsRejection.
Import Codec.

Lemma encodeAll_snoc (l : list VoteBits) (vb : VoteBits) :
  encodeAll (l ++ [vb]) = encodeAll l ++ encodeRecord 1 vb.
Proof.
  unfold encodeAll. rewrite map_app, concat_app. cbn [map concat].
  now rewrite app_nil_r.
Qed.

Lemma votebits_roundtrip (l : list VoteBits) :
  Forall wfVoteBits l ->
  DecodeConcatenatedVoteBits (Hex.EncodeToString (encodeAll l)) = inr l.
Proof.
  intros Hwf. rewrite DecodeConcatenatedVoteBits_bytes.
  rewrite <- (app_nil_r (encodeAll l)) at 2.
  rewrite decodeRecords_app; [|exact Hwf|rewrite app_nil_r; lia].
  cbn. now rewrite app_nil_r.
Qed.

(** What is left of the input after the records of [l] decides. *)
Lemma decode_after (l : list VoteBits) (t : list byte) :
  Forall wfVoteBits l ->
  DecodeConcatenatedVoteBits (Hex.EncodeToString (encodeAll l ++ t))
  = match decodeRecords 1 (length t) t with
    | inl e => inl e
    | inr rest => inr (l ++ rest)
    end.
Proof.
  intros Hwf. rewrite DecodeConcatenatedVoteBits_bytes.
  now apply decodeRecords_app.
Qed.

Lemma short_read (l : list VoteBits) :
  Forall wfVoteBits l -> l <> [] ->
  DecodeConcatenatedVoteBits (Hex.EncodeToString (removelast (encodeAll l)))
  = inl ErrShortRead.
Proof.
  intros Hwf Hne.
  destruct (exists_last Hne) as (l' & vb & ->).
  apply Forall_app in Hwf as [Hl' Hvb]. apply Forall_inv in Hvb.
  rewrite encodeAll_snoc.
  destruct (encodeRecord_prefix vb Hvb) as (p & b0 & b1 & E & Hp & _).
  rewrite removelast_app by (rewrite E; discriminate).
  rewrite decode_after by exact Hl'.
  rewrite E. change (removelast (p :: b0 :: b1 :: ExtendedBits vb))
    with (p :: removelast (b0 :: b1 :: ExtendedBits vb)).
  cbn [length]. rewrite decodeRecords_cons. cbn zeta. rewrite Hp.
  replace (2 + length (ExtendedBits vb) <? 2) with false
    by (symmetry; apply Nat.ltb_ge; lia).
  replace (length (removelast (b0 :: b1 :: ExtendedBits vb))
             <? 2 + length (ExtendedBits vb)) with true; [reflexivity|].
  symmetry. apply Nat.ltb_lt.
  rewrite removelast_firstn_len, length_take. cbn [length]. lia.
Qed.

Lemma trailing_byte (l : list VoteBits) (x : byte) :
  Forall wfVoteBits l ->
  exists e,
    DecodeConcatenatedVoteBits (Hex.EncodeToString (encodeAll l ++ [x]))
    = inl e.
Proof.
  intros Hwf. rewrite decode_after by exact Hwf.
  cbn [length]. rewrite decodeRecords_cons. cbn zeta.
  destruct (_ <? 2) eqn:E2; [eauto|].
  replace (length [] <? N.to_nat (Byte.to_N x)) with true; [eauto|].
  symmetry. apply Nat.ltb_lt. apply Nat.ltb_ge in E2. cbn [length]. lia.
Qed.

Lemma small_prefix (l : list VoteBits) (p : byte) (rest : list byte) :
  Forall wfVoteBits l -> (Byte.to_N p < 2)%N ->
  DecodeConcatenatedVoteBits
    (Hex.EncodeToString (encodeAll l ++ p :: rest))
  = inl ErrInvalidLengthByte.
Proof.
  intros Hwf Hp. rewrite decode_after by exact Hwf.
  cbn [length]. rewrite decodeRecords_cons. cbn zeta.
  replace (N.to_nat (Byte.to_N p) <? 2) with true; [reflexivity|].
  symmetry. apply Nat.ltb_lt. lia.
Qed.

Lemma too_long_rejected (l : list VoteBits) :
  Exists (fun vb => maxExtendedBits < length (ExtendedBits vb)) l ->
  EncodeConcatenatedVoteBits l = inl ErrExtendedBitsTooLong.
Proof.
  intros Hex. unfold EncodeConcatenatedVoteBits, encodeVoteBitsWith.
  replace (forallb _ l) with false; [reflexivity|].
  symmetry. apply not_true_is_false. intros Hall.
  rewrite forallb_forall in Hall.
  apply Exists_exists in Hex as (vb & Hin & Hlen).
  apply list_elem_of_In, Hall, Nat.leb_le in Hin. lia.
Qed.

End VoteBitsRejection.

Section CodecClaims.
Import Codec CodecTest.

(** C7 (as stated, refuted): the record [{Bits:0, ExtendedBits:[]}] does
    not encode to the four bytes 02 00 00 00 of a two-byte length prefix
    followed by the Bits; it encodes to the three bytes 02 00 00, and the
    two-byte layout fails the repository's own
    [TestEncodeConcatenatedVoteBits] and [TestDecodeConcatenatedVoteBits]. *)
Lemma C7_two_byte_prefix_refuted :
  ~ (EncodeConcatenatedVoteBits [ {| Bits := 0; ExtendedBits := [] |} ]
     = inr (Hex.EncodeToString [x02; x00; x00; x00]))
  /\ TestEncodeConcatenatedVoteBits EncodeConcatenatedVoteBits_spec = false
  /\ TestDecodeConcatenatedVoteBits DecodeConcatenatedVoteBits_spec = false
  /\ TestEncodeConcatenatedVoteBits EncodeConcatenatedVoteBits = true
  /\ TestDecodeConcatenatedVoteBits DecodeConcatenatedVoteBits = true.
Proof.
  split; [vm_compute; discriminate|].
  repeat split; vm_compute; reflexivity.
Qed.

(** C7 (amended): each vote-bits record is encoded as a one-byte length
    prefix whose value is two plus the number of ExtendedBits bytes,
    followed by the two bytes of Bits in little-endian order, followed by
    the ExtendedBits bytes; the encoding of a list is the hex encoding of
    its records in order; and [{Bits:0, ExtendedBits:[]}] encodes to the
    prefix 02 followed by the Bits 00 00 and no extended bytes. *)
Theorem C7_record_layout (vbs : list VoteBits) :
  Forall wfVoteBits vbs ->
  EncodeConcatenatedVoteBits vbs
    = inr (Hex.EncodeToString (concat (map (encodeRecord 1) vbs)))
  /\ Forall (fun vb =>
       exists p b0 b1,
         encodeRecord 1 vb = [p] ++ [b0; b1] ++ ExtendedBits vb
         /\ Byte.to_N p = (2 + N.of_nat (length (ExtendedBits vb)))%N
         /\ (Byte.to_N b0 + 256 * Byte.to_N b1)%N = Bits vb) vbs
  /\ EncodeConcatenatedVoteBits [ {| Bits := 0; ExtendedBits := [] |} ]
     = inr (Hex.EncodeToString [x02; x00; x00]).
Proof.
  intros Hwf. split; [exact (EncodeConcatenatedVoteBits_ok vbs Hwf)|].
  split; [|reflexivity].
  eapply Forall_impl; [exact Hwf|]. intros vb Hvb.
  destruct (encodeRecord_prefix vb Hvb) as (p & b0 & b1 & E & Hp & Hb).
  exists p, b0, b1. split; [exact E|]. split; [lia|].
  cbn [getLE] in Hb. lia.
Qed.

Lemma C7_record_layout_witness :
  Forall wfVoteBits testVbs
  /\ EncodeConcatenatedVoteBits testVbs
     = inr (Hex.EncodeToString expectedEncoded).
Proof.
  assert (Hwf : Forall wfVoteBits testVbs).
  { unfold testVbs, wfVoteBits, wfBits, maxExtendedBits,
      MaxSingleBytePushLength.
    repeat (constructor; [cbn; lia|]). constructor. }
  split; [exact Hwf|].
  destruct (C7_record_layout testVbs Hwf) as (-> & _ & _). reflexivity.
Defined.

(** C8: decoding the encoding of any list of fixed-width hashes gives the
    list back; no hashes encode to the empty string; the encoding is the
    concatenation, in order and without separators, of the hex encoding of
    the raw bytes of each hash; and decoding the encoding of any
    well-formed list of vote-bits records gives the list back. *)
Theorem C8_codec_roundtrip (hs : list Hash) (vbs : list VoteBits) :
  Forall wfHash hs -> Forall wfVoteBits vbs ->
  (exists s, EncodeConcatenatedHashes hs = inr s
             /\ DecodeConcatenatedHashes s = inr hs
             /\ s = String.concat "" (map Hex.EncodeToString hs))
  /\ EncodeConcatenatedHashes [] = inr ""
  /\ (exists s, EncodeConcatenatedVoteBits vbs = inr s
                /\ DecodeConcatenatedVoteBits s = inr vbs).
Proof.
  intros Hhs Hvbs. repeat split.
  - eexists. split; [reflexivity|]. split.
    + now apply hashes_roundtrip.
    + apply EncodeToString_concat.
  - eexists. split; [now apply EncodeConcatenatedVoteBits_ok|].
    now apply votebits_roundtrip.
Qed.

Lemma C8_codec_roundtrip_witness :
  Forall wfHash testHashes /\ Forall wfVoteBits testVbs
  /\ (exists s, EncodeConcatenatedHashes testHashes = inr s
                /\ DecodeConcatenatedHashes s = inr testHashes
                /\ s = String.concat "" (map Hex.EncodeToString testHashes))
  /\ (exists s, EncodeConcatenatedVoteBits testVbs = inr s
                /\ DecodeConcatenatedVoteBits s = inr testVbs).
Proof.
  assert (Hhs : Forall wfHash testHashes).
  { vm_compute. repeat (constructor; [reflexivity|]). constructor. }
  assert (Hvbs : Forall wfVoteBits testVbs).
  { unfold testVbs, wfVoteBits, wfBits, maxExtendedBits,
      MaxSingleBytePushLength.
    repeat (constructor; [cbn; lia|]). constructor. }
  split; [exact Hhs|]. split; [exact Hvbs|].
  destruct (C8_codec_roundtrip testHashes testVbs Hhs Hvbs) as (H1 & _ & H2).
  split; assumption.
Defined.

(** C9: for every well-formed list of records with encoding [bs], the
    decoder returns an error, and so no records at all, on [bs] without
    its last byte, on [bs] with any byte added, and on [bs] followed by a
    record whose length prefix is below two; the encoder returns an error
    for every list holding a record whose ExtendedBits are longer than the
    maximum, such as the 74 bytes of the test. *)
Theorem C9_codec_rejects (vbs bad : list VoteBits) (x p : byte)
    (rest : list byte) :
  Forall wfVoteBits vbs ->
  exists bs,
    EncodeConcatenatedVoteBits vbs = inr (Hex.EncodeToString bs)
    /\ (vbs <> [] ->
        DecodeConcatenatedVoteBits (Hex.EncodeToString (removelast bs))
        = inl ErrShortRead)
    /\ isErr (DecodeConcatenatedVoteBits (Hex.EncodeToString (bs ++ [x])))
       = true
    /\ ((Byte.to_N p < 2)%N ->
        DecodeConcatenatedVoteBits (Hex.EncodeToString (bs ++ p :: rest))
        = inl ErrInvalidLengthByte)
    /\ (Exists (fun vb => maxExtendedBits < length (ExtendedBits vb)) bad ->
        EncodeConcatenatedVoteBits bad = inl ErrExtendedBitsTooLong)
    /\ EncodeConcatenatedVoteBits tooLongVbs = inl ErrExtendedBitsTooLong.
Proof.
  intros Hwf. exists (encodeAll vbs).
  split; [now apply EncodeConcatenatedVoteBits_ok|].
  split; [now apply short_read|].
  split; [destruct (trailing_byte vbs x Hwf) as [e ->]; reflexivity|].
  split; [now apply small_prefix|].
  split; [apply too_long_rejected|reflexivity].
Qed.

Lemma C9_codec_rejects_witness :
  Forall wfVoteBits expectedVbs
  /\ isErr (DecodeConcatenatedVoteBits (Hex.EncodeToString shortRead)) = true
  /\ isErr (DecodeConcatenatedVoteBits (Hex.EncodeToString tooLongRead)) = true
  /\ isErr (DecodeConcatenatedVoteBits
              (Hex.EncodeToString (encodedBytes ++ x01 :: tl encodedBytes)))
     = true
  /\ isErr (EncodeConcatenatedVoteBits tooLongVbs) = true.
Proof.
  assert (Hwf : Forall wfVoteBits expectedVbs).
  { unfold expectedVbs, wfVoteBits, wfBits, maxExtendedBits,
      MaxSingleBytePushLength.
    repeat (constructor; [cbn; lia|]). constructor. }
  split; [exact Hwf|].
  destruct (C9_codec_rejects expectedVbs tooLongVbs x06 x01
              (tl encodedBytes) Hwf)
    as (bs & Henc & Hshort & Hlong & Hsmall & Hbad & _).
  assert (bs = encodedBytes) as ->.
  { apply (f_equal (fun r => match r with
                             | inr s => Hex.DecodeString s
                             | inl _ => None
                             end)) in Henc.
    rewrite DecodeString_EncodeToString in Henc.
    vm_compute in Henc. now inversion Henc. }
  split; [unfold shortRead; rewrite Hshort; [reflexivity|discriminate]|].
  split; [exact Hlong|].
  split; [rewrite Hsmall; [reflexivity|vm_compute; reflexivity]|].
  rewrite Hbad; [reflexivity|].
  apply Exists_cons_hd. unfold maxExtendedBits, MaxSingleBytePushLength.
  cbn. lia.
Defined.

End CodecClaims.


(** ** ProcessBlock *)

Section ProcessFacts.
Import Blockchain.
Context {TimeSource Params : Type}.
Implicit Types (c : Collaborators TimeSource Params)
  (b : BlockChain TimeSource Params) (block : Block)
  (flags : BehaviorFlags).

Local Abbreviation prevOf block := (PrevBlock (Header (msgBlock block))).

(** [ProcessBlock] with its early returns spelled out. *)
Lemma ProcessBlock_unfold c block flags b :
  ProcessBlock c block flags b
  = if HaveBlock (index b) (blockHash block) then
      ((0%Z, Some (duplicateBlockError block)), b,
       firstn 1 (allCalls block flags false))
    else
      match checkBlockSanityContextFree block (timeSource b) flags
              (chainParams b) with
      | Some e => ((0%Z, Some e), b, firstn 2 (allCalls block flags false))
      | None =>
          if HaveBlock (index b) (prevOf block) then
            match isTreasuryAgendaActiveByHash b (prevOf block) with
            | inl e =>
                ((0%Z, Some e), b, firstn 4 (allCalls block flags false))
            | inr v =>
                match checkBlockSanityContextual block (timeSource b) flags
                        (chainParams b) v with
                | Some e =>
                    ((0%Z, Some e), b, firstn 5 (allCalls block flags v))
                | None =>
                    match maybeAcceptBlock block flags b with
                    | ((_, Some e), b') =>
                        ((0%Z, Some e), b', allCalls block flags v)
                    | ((forkLen, None), b') =>
                        ((forkLen, None), b', allCalls block flags v)
                    end
                end
            end
          else
            ((0%Z, Some (missingParentError block)), b,
             firstn 3 (allCalls block flags false))
      end.
Proof.
  unfold ProcessBlock, run, bind, call, callMut, returnIf, returnIfErr,
    Return, next.
  destruct (HaveBlock (index b) (blockHash block)); [reflexivity|].
  destruct (checkBlockSanityContextFree _ _ _ _); [reflexivity|].
  destruct (HaveBlock (index b) (prevOf block)); [|reflexivity].
  cbn [negb].
  destruct (isTreasuryAgendaActiveByHash b _) as [e|v]; [reflexivity|].
  destruct (checkBlockSanityContextual _ _ _ _ _); [reflexivity|].
  destruct (maybeAcceptBlock block flags b) as [[n [e|]] b']; reflexivity.
Qed.

(** The Chain Acceptor changes nothing when it fails. *)
Lemma chainAcceptor_error CalcWork block flags b n e b' :
  chainAcceptor CalcWork block flags b = ((n, Some e), b') -> b' = b.
Proof.
  unfold chainAcceptor.
  destruct (index b !! prevOf block) as [parent|];
    [destruct (index b !! bestTip b) as [tip|]|];
    try (intros [= _ _ <-]; reflexivity).
  destruct (bool_decide _); [discriminate|].
  destruct (commonAncestor _ _ _); [|intros [= _ _ <-]; reflexivity].
  destruct (_ <? _)%Z; discriminate.
Qed.

(** Whenever [ProcessBlock] fails before the acceptor, or the acceptor is
    the Chain Acceptor, the chain is as it was. *)
Lemma ProcessBlock_error_unchanged CalcWork c block flags b n e b' t :
  ProcessBlock (withChainAcceptor CalcWork c) block flags b
    = ((n, Some e), b', t) ->
  b' = b.
Proof.
  rewrite ProcessBlock_unfold. cbn [maybeAcceptBlock withChainAcceptor].
  repeat match goal with
         | |- context [if ?x then _ else _] => destruct x
         | |- context [match ?x with Some _ => _ | None => _ end] =>
             destruct x
         | |- context [match ?x with inl _ => _ | inr _ => _ end] =>
             destruct x
         | |- (_, _, _) = (_, _, _) -> _ => intros [= ]; subst; try reflexivity
         end.
  destruct (chainAcceptor CalcWork block flags b) as [[m [e'|]] b''] eqn:E;
    intros [= ]; subst.
  now apply chainAcceptor_error in E.
Qed.

Lemma HaveBlock_true (idx : gmap Hash blockNode) (h : Hash) :
  is_Some (idx !! h) -> HaveBlock idx h = true.
Proof. intros H. unfold HaveBlock. now apply bool_decide_eq_true. Qed.

Lemma HaveBlock_false (idx : gmap Hash blockNode) (h : Hash) :
  HaveBlock idx h = false -> idx !! h = None.
Proof.
  unfold HaveBlock. intros H%bool_decide_eq_false.
  destruct (idx !! h) eqn:E; [|reflexivity]. destruct H. eauto.
Qed.

(** Case analysis on every test [ProcessBlock_unfold] makes. *)
Ltac branches :=
  repeat match goal with
         | |- context [if ?x then _ else _] => destruct x eqn:?
         | |- context [match ?x with Some _ => _ | None => _ end] =>
             destruct x eqn:?
         | |- context [match ?x with inl _ => _ | inr _ => _ end] =>
             destruct x eqn:?
         | |- context [match ?x with (_, _) => _ end] => destruct x eqn:?
         end.

(** C2: a block whose hash is in the index, on whatever chain, is refused
    with the duplicate-block rule error; the chain state is untouched and
    the membership test is the only call made, so that neither sanity
    check has run. *)
Theorem C2_duplicate_rejected c block flags b :
  is_Some (index b !! blockHash block) ->
  ProcessBlock c block flags b
  = ((0%Z, Some (RuleError ErrDuplicateBlock
                   ("already have block "
                      +:+ HashString (blockHash block)))),
     b, [EvHaveBlock (blockHash block)]).
Proof.
  intros Hin. rewrite ProcessBlock_unfold.
  now rewrite (HaveBlock_true _ _ Hin).
Qed.

(** C3 (amended): when the parent hash of a block is absent from the
    index, [ProcessBlock] fails and leaves the chain state, and so the
    index, as it was; and when moreover the block is not in the index
    itself and passes the context-free check, the failure is the
    missing-parent rule error, raised before any later step. *)
Theorem C3_missing_parent c block flags b :
  index b !! prevOf block = None ->
  let out := ProcessBlock c block flags b in
  chainAfter out = b
  /\ (exists e, returned out = (0%Z, Some e))
  /\ (index b !! blockHash block = None ->
      checkBlockSanityContextFree block (timeSource b) flags (chainParams b)
        = None ->
      returned out
        = (0%Z, Some (RuleError ErrMissingParent
                        ("previous block " +:+ HashString (prevOf block)
                           +:+ " is not known")))
      /\ calls out
         = [ EvHaveBlock (blockHash block);
             EvCheckBlockSanityContextFree block flags;
             EvHaveBlock (prevOf block) ]).
Proof.
  intros Hprev out. subst out. rewrite ProcessBlock_unfold.
  assert (Hp : HaveBlock (index b) (prevOf block) = false).
  { unfold HaveBlock. rewrite Hprev. apply bool_decide_eq_false.
    intros [? [=]]. }
  rewrite Hp.
  destruct (HaveBlock (index b) (blockHash block)) eqn:Hh.
  - split; [reflexivity|]. split; [eauto|]. intros Hnone.
    apply bool_decide_eq_true in Hh. rewrite Hnone in Hh.
    destruct Hh as [? [=]].
  - destruct (checkBlockSanityContextFree _ _ _ _) eqn:Hcf.
    + split; [reflexivity|]. split; [eauto|]. intros _ [=].
    + split; [reflexivity|]. split; [eauto|]. intros _ _.
      split; reflexivity.
Qed.

(** C4: the run of [ProcessBlock] depends on the agenda resolver only
    through its answer for the parent hash of the block, taken on the chain
    state before acceptance, and on the context-dependent check only through
    its answer under the flag so resolved: collaborators that agree there
    (and on the context-free check and the acceptor) give the same run,
    whatever they answer for the hash of the block itself or under the other
    flag value, and when the resolver fails the context-dependent check has
    no say at all.  The check under the resolved flag is decisive: when it
    fails, its error is what [ProcessBlock] returns.  In the list of calls,
    the context-dependent check carries that very flag, the resolver's call
    on the parent hash comes directly before it, and the resolver is asked
    about no other hash. *)
Theorem C4_agenda_of_parent c c' block flags b :
  checkBlockSanityContextFree (Collaborators := c) block (timeSource b)
    flags (chainParams b)
  = checkBlockSanityContextFree (Collaborators := c') block (timeSource b)
      flags (chainParams b) ->
  isTreasuryAgendaActiveByHash (Collaborators := c) b (prevOf block)
  = isTreasuryAgendaActiveByHash (Collaborators := c') b (prevOf block) ->
  (forall v,
     isTreasuryAgendaActiveByHash (Collaborators := c) b (prevOf block)
       = inr v ->
     checkBlockSanityContextual (Collaborators := c) block (timeSource b)
       flags (chainParams b) v
     = checkBlockSanityContextual (Collaborators := c') block (timeSource b)
         flags (chainParams b) v) ->
  maybeAcceptBlock (Collaborators := c) block flags b
  = maybeAcceptBlock (Collaborators := c') block flags b ->
  let out := ProcessBlock c block flags b in
  out = ProcessBlock c' block flags b
  /\ (forall v e,
        index b !! blockHash block = None ->
        checkBlockSanityContextFree (Collaborators := c) block (timeSource b)
          flags (chainParams b) = None ->
        is_Some (index b !! prevOf block) ->
        isTreasuryAgendaActiveByHash (Collaborators := c) b (prevOf block)
          = inr v ->
        checkBlockSanityContextual (Collaborators := c) block (timeSource b)
          flags (chainParams b) v = Some e ->
        returned out = (0%Z, Some e) /\ chainAfter out = b)
  /\ (forall blk fl v,
        In (EvCheckBlockSanityContextual blk fl v) (calls out) ->
        blk = block /\ fl = flags
        /\ isTreasuryAgendaActiveByHash (Collaborators := c) b (prevOf block)
           = inr v
        /\ (exists pre post,
              calls out
              = pre ++ [ EvIsTreasuryAgendaActiveByHash (prevOf block);
                         EvCheckBlockSanityContextual block flags v ]
                    ++ post)
        /\ (forall h, In (EvIsTreasuryAgendaActiveByHash h) (calls out) ->
                      h = prevOf block)).
Proof.
  intros Hcf Hag Hctx Hacc out. subst out. split; [|split].
  - rewrite !ProcessBlock_unfold, <- Hcf, <- Hag, <- Hacc.
    destruct (HaveBlock (index b) (blockHash block)); [reflexivity|].
    destruct (checkBlockSanityContextFree _ _ _ _); [reflexivity|].
    destruct (HaveBlock (index b) (prevOf block)); [|reflexivity].
    destruct (isTreasuryAgendaActiveByHash b _) as [e|v] eqn:Hv;
      [reflexivity|].
    now rewrite <- (Hctx v eq_refl).
  - intros v e Hnew Hcf0 Hparent Hv He. rewrite ProcessBlock_unfold.
    assert (Hh : HaveBlock (index b) (blockHash block) = false).
    { unfold HaveBlock. rewrite Hnew. apply bool_decide_eq_false.
      intros [? [=]]. }
    rewrite Hh, Hcf0, (HaveBlock_true _ _ Hparent), Hv, He.
    split; reflexivity.
  - intros blk fl v. clear Hcf Hag Hctx Hacc.
    rewrite ProcessBlock_unfold. branches;
      cbn [calls snd firstn allCalls In]; intros Hin;
      repeat (destruct Hin as [Hin|Hin]; try discriminate Hin);
      try contradiction;
      injection Hin as -> -> ->;
      (split; [reflexivity|]); (split; [reflexivity|]);
      (split; [reflexivity|]);
      (split;
       [ eexists [_; _; _], _; reflexivity
       | intros h Hh;
         repeat (destruct Hh as [Hh|Hh]; try discriminate Hh);
         try contradiction; now injection Hh as <- ]).
Qed.

(** C5: the calls of [ProcessBlock] are, in this order, the duplicate
    test, the context-free check, the parent test, the agenda resolver,
    the context-dependent check and the acceptor; the first step that
    fails ends the run with its error, fork length 0 and the chain state
    untouched, and no later step is called. *)
Theorem C5_order_of_steps c block flags b :
  let out := ProcessBlock c block flags b in
  let all := allCalls block flags in
  let cf := checkBlockSanityContextFree block (timeSource b) flags
              (chainParams b) in
  let ctx := checkBlockSanityContextual block (timeSource b) flags
               (chainParams b) in
  let agenda := isTreasuryAgendaActiveByHash b (prevOf block) in
  (is_Some (index b !! blockHash block)
   /\ out = ((0%Z, Some (duplicateBlockError block)), b, firstn 1 (all false)))
  \/ (exists e,
        index b !! blockHash block = None /\ cf = Some e
        /\ out = ((0%Z, Some e), b, firstn 2 (all false)))
  \/ (index b !! blockHash block = None /\ cf = None
      /\ index b !! prevOf block = None
      /\ out = ((0%Z, Some (missingParentError block)), b,
                firstn 3 (all false)))
  \/ (exists e,
        index b !! blockHash block = None /\ cf = None
        /\ is_Some (index b !! prevOf block) /\ agenda = inl e
        /\ out = ((0%Z, Some e), b, firstn 4 (all false)))
  \/ (exists v e,
        index b !! blockHash block = None /\ cf = None
        /\ is_Some (index b !! prevOf block) /\ agenda = inr v
        /\ ctx v = Some e
        /\ out = ((0%Z, Some e), b, firstn 5 (all v)))
  \/ (exists v forkLen err b',
        index b !! blockHash block = None /\ cf = None
        /\ is_Some (index b !! prevOf block) /\ agenda = inr v
        /\ ctx v = None
        /\ maybeAcceptBlock block flags b = ((forkLen, err), b')
        /\ out = ((match err with Some _ => 0%Z | None => forkLen end,
                   err), b', all v)).
Proof.
  intros out all cf ctx agenda. subst out all cf ctx agenda.
  rewrite ProcessBlock_unfold.
  destruct (HaveBlock (index b) (blockHash block)) eqn:Hh.
  { left. split; [|reflexivity]. now apply bool_decide_eq_true in Hh. }
  apply HaveBlock_false in Hh. right.
  destruct (checkBlockSanityContextFree _ _ _ _) as [e|] eqn:Hcf.
  { left. eauto. }
  right.
  destruct (HaveBlock (index b) (prevOf block)) eqn:Hp.
  2:{ left. apply HaveBlock_false in Hp. eauto. }
  apply bool_decide_eq_true in Hp. right.
  destruct (isTreasuryAgendaActiveByHash b _) as [e|v] eqn:Hag.
  { left. eauto 10. }
  right.
  destruct (checkBlockSanityContextual _ _ _ _ _) as [e|] eqn:Hctx.
  { left. eauto 10. }
  right.
  destruct (maybeAcceptBlock block flags b) as [[n [e|]] b'] eqn:Hacc;
    eexists v, n, _, b'; rewrite Hctx; eauto 10.
Qed.

(** C6: with the Chain Acceptor as acceptor, a call of [ProcessBlock]
    that returns an error leaves the whole chain state, index included,
    as it was, and a second call with the same block then returns the
    same error, again without any change. *)
Theorem C6_rejection_atomic_idempotent CalcWork c block flags b
    n e b' t :
  ProcessBlock (withChainAcceptor CalcWork c) block flags b
    = ((n, Some e), b', t) ->
  b' = b
  /\ index b' = index b
  /\ ProcessBlock (withChainAcceptor CalcWork c) block flags b'
     = ((n, Some e), b', t).
Proof.
  intros Hrun.
  assert (b' = b) as -> by exact (ProcessBlock_error_unchanged _ _ _ _ _ _ _ _ _ Hrun).
  auto.
Qed.




(** C10: whenever [ProcessBlock] returns an error, whichever step raised
    it, the fork length it returns with it is 0. *)
Theorem C10_error_fork_length_zero c block flags b :
  snd (returned (ProcessBlock c block flags b)) <> None ->
  fst (returned (ProcessBlock c block flags b)) = 0%Z.
Proof.
  rewrite ProcessBlock_unfold. branches; cbn [returned fst snd];
    intros Herr; try reflexivity.
  now destruct Herr.
Qed.

End ProcessFacts.

(** ** The codec tests and the chain A1..A3, B1..B3 *)

Section Scenarios.
Import Codec CodecTest Blockchain Scenario.

Example hash_tests_pass :
  TestEncodeConcatenatedHashes EncodeConcatenatedHashes = true
  /\ TestDecodeConcatenatedHashes DecodeConcatenatedHashes = true.
Proof. split; vm_compute; reflexivity. Qed.

Example side_branch_fork_lengths :
  returned (ProcessBlock lenient blockA2 BFNone chain0) = (0%Z, None)
  /\ returned (ProcessBlock lenient blockB1 BFNone
                 (after blockA3 (after blockA2 chain0))) = (1%Z, None)
  /\ returned (ProcessBlock lenient blockB2 BFNone
                 (after blockB1 (after blockA3 (after blockA2 chain0))))
     = (2%Z, None).
Proof. repeat split; vm_compute; reflexivity. Qed.



Lemma C2_duplicate_rejected_witness :
  is_Some (index chainAB !! blockHash blockB1)
  /\ ProcessBlock lenient blockB1 BFNone chainAB
     = ((0%Z, Some (duplicateBlockError blockB1)), chainAB, [EvHaveBlock B1]).
Proof.
  assert (Hin : is_Some (index chainAB !! blockHash blockB1))
    by (vm_compute; eauto).
  split; [exact Hin|].
  exact (C2_duplicate_rejected lenient blockB1 BFNone chainAB Hin).
Defined.

(** C3 (as stated, refuted): the parent of A1 is not in the index, yet
    presenting A1 again is answered with the duplicate-block error; and a
    block with an unknown parent that fails the context-free check is
    answered with the error of that check.  Neither is the missing-parent
    error. *)
Lemma C3_absent_parent_other_error :
  index chainAB !! PrevBlock (Header (msgBlock blockA1)) = None
  /\ returned (ProcessBlock lenient blockA1 BFNone chainAB)
     = (0%Z, Some (duplicateBlockError blockA1))
  /\ returned (ProcessBlock lenient blockA1 BFNone chainAB)
     <> (0%Z, Some (missingParentError blockA1))
  /\ index chainAB !! PrevBlock (Header (msgBlock orphan)) = None
  /\ returned (ProcessBlock strict orphan BFNone chainAB)
     = (0%Z, Some malformed)
  /\ returned (ProcessBlock strict orphan BFNone chainAB)
     <> (0%Z, Some (missingParentError orphan)).
Proof.
  repeat split; try (vm_compute; reflexivity); vm_compute; discriminate.
Qed.

Lemma C3_missing_parent_witness :
  chainAfter (ProcessBlock lenient orphan BFNone chainAB) = chainAB
  /\ returned (ProcessBlock lenient orphan BFNone chainAB)
     = (0%Z, Some (missingParentError orphan)).
Proof.
  destruct (C3_missing_parent lenient orphan BFNone chainAB)
    as (Hsame & _ & Hmissing); [vm_compute; reflexivity|].
  split; [exact Hsame|].
  destruct Hmissing as [Hret _]; [vm_compute; reflexivity..|].
  exact Hret.
Defined.

Lemma C4_agenda_of_parent_witness :
  isTreasuryAgendaActiveByHash (Collaborators := wary) chainAB B3 = inr true
  /\ checkBlockSanityContextual (Collaborators := wary) blockB3 tt BFNone tt
       true = Some malformed
  /\ ProcessBlock lenient blockB3 BFNone chainAB
     = ProcessBlock wary blockB3 BFNone chainAB
  /\ exists pre post,
       calls (ProcessBlock lenient blockB3 BFNone chainAB)
       = pre ++ [ EvIsTreasuryAgendaActiveByHash B2;
                  EvCheckBlockSanityContextual blockB3 BFNone false ]
             ++ post.
Proof.
  split; [vm_compute; reflexivity|]. split; [reflexivity|].
  destruct (C4_agenda_of_parent lenient wary blockB3 BFNone chainAB)
    as (Hsame & _ & Hcalls).
  - reflexivity.
  - vm_compute. reflexivity.
  - intros v Hv.
    assert (v = false) as -> by (vm_compute in Hv; now injection Hv as <-).
    reflexivity.
  - reflexivity.
  - split; [exact Hsame|].
    destruct (Hcalls blockB3 BFNone false) as (_ & _ & _ & Hpre & _).
    + vm_compute. do 4 right. left. reflexivity.
    + exact Hpre.
Defined.

Lemma C6_rejection_atomic_idempotent_witness :
  ProcessBlock (withChainAcceptor CalcWork strict) orphan BFNone chainAB
    = ((0%Z, Some malformed), chainAB,
       firstn 2 (allCalls orphan BFNone false))
  /\ index chainAB = index chainAB
  /\ ProcessBlock (withChainAcceptor CalcWork strict) orphan BFNone chainAB
     = ((0%Z, Some malformed), chainAB,
        firstn 2 (allCalls orphan BFNone false)).
Proof.
  assert (Hrun :
    ProcessBlock (withChainAcceptor CalcWork strict) orphan BFNone chainAB
    = ((0%Z, Some malformed), chainAB,
       firstn 2 (allCalls orphan BFNone false)))
    by (vm_compute; reflexivity).
  split; [exact Hrun|].
  destruct (C6_rejection_atomic_idempotent CalcWork strict orphan BFNone
              chainAB 0%Z malformed chainAB
              (firstn 2 (allCalls orphan BFNone false)) Hrun)
    as (_ & Hidx & Hagain).
  split; [exact Hidx|exact Hagain].
Defined.

Lemma C10_error_fork_length_zero_witness :
  snd (returned (ProcessBlock lenient orphan BFNone chainAB)) <> None
  /\ fst (returned (ProcessBlock lenient orphan BFNone chainAB)) = 0%Z.
Proof.
  assert (Herr :
    snd (returned (ProcessBlock lenient orphan BFNone chainAB)) <> None)
    by (vm_compute; discriminate).
  split; [exact Herr|].
  exact (C10_error_fork_length_zero lenient orphan BFNone chainAB Herr).
Defined.

End Scenarios.

(** ** More on ProcessBlock *)

Section ProcessBlockGuards.
Import Blockchain.
Context {TimeSource Params : Type}.
Implicit Types (c : Collaborators TimeSource Params)
  (b : BlockChain TimeSource Params) (block : Block)
  (flags : BehaviorFlags).

Local Abbreviation prevOf block := (PrevBlock (Header (msgBlock block))).

Ltac tests :=
  repeat match goal with
         | |- context [if ?x then _ else _] => destruct x eqn:?
         | |- context [match ?x with Some _ => _ | None => _ end] =>
             destruct x eqn:?
         | |- context [match ?x with inl _ => _ | inr _ => _ end] =>
             destruct x eqn:?
         | |- context [match ?x with (_, _) => _ end] => destruct x eqn:?
         end.

Ltac no_such_call H :=
  repeat (destruct H as [H|H]; try discriminate H); try contradiction.

(** The acceptor is only ever called with the block and flags of the caller,
    for a block that is not in the index, whose parent is, and that passed
    both sanity checks under the agenda flag of its parent. *)
Theorem acceptor_called_only_after_all_checks c block flags b blk fl :
  In (EvMaybeAcceptBlock blk fl) (calls (ProcessBlock c block flags b)) ->
  blk = block /\ fl = flags
  /\ index b !! blockHash block = None
  /\ is_Some (index b !! prevOf block)
  /\ checkBlockSanityContextFree block (timeSource b) flags (chainParams b)
     = None
  /\ exists v,
       isTreasuryAgendaActiveByHash b (prevOf block) = inr v
       /\ checkBlockSanityContextual block (timeSource b) flags
            (chainParams b) v = None.
Proof.
  rewrite ProcessBlock_unfold. tests;
    cbn [calls snd firstn allCalls In]; intros Hin; no_such_call Hin;
    injection Hin as -> ->;
    repeat match goal with
           | H : HaveBlock _ _ = false |- _ => apply HaveBlock_false in H
           | H : HaveBlock _ _ = true |- _ => apply bool_decide_eq_true in H
           end;
    eauto 10.
Qed.

(** A run in which the acceptor is not called ends in an error with fork
    length 0 and leaves the chain state as it was: [ProcessBlock] changes
    nothing by itself. *)
Theorem no_change_without_acceptor c block flags b :
  ~ In (EvMaybeAcceptBlock block flags)
      (calls (ProcessBlock c block flags b)) ->
  chainAfter (ProcessBlock c block flags b) = b
  /\ exists e, returned (ProcessBlock c block flags b) = (0%Z, Some e).
Proof.
  rewrite ProcessBlock_unfold. tests;
    cbn [calls chainAfter returned fst snd firstn allCalls In];
    intros Hnot; try (split; [reflexivity|eauto]);
    exfalso; apply Hnot; do 5 right; left; reflexivity.
Qed.

(** When [ProcessBlock] returns no error, all six steps ran in order and
    the fork length and the chain state are exactly the ones the acceptor
    gave, the acceptor having returned no error either. *)
Theorem success_is_the_acceptors c block flags b :
  snd (returned (ProcessBlock c block flags b)) = None ->
  (exists v,
     isTreasuryAgendaActiveByHash b (prevOf block) = inr v
     /\ calls (ProcessBlock c block flags b) = allCalls block flags v)
  /\ maybeAcceptBlock block flags b
     = (returned (ProcessBlock c block flags b),
        chainAfter (ProcessBlock c block flags b)).
Proof.
  rewrite ProcessBlock_unfold. tests;
    cbn [calls chainAfter returned fst snd]; intros Hok;
    try discriminate Hok; eauto.
Qed.

(** Whenever the acceptor is called, the chain state [ProcessBlock] leaves
    is the one the acceptor left and the error is the acceptor's, also when
    the acceptor fails: nothing is rolled back, and only the fork length is
    replaced by 0 on an error. *)
Theorem acceptor_state_is_kept c block flags b :
  In (EvMaybeAcceptBlock block flags)
    (calls (ProcessBlock c block flags b)) ->
  chainAfter (ProcessBlock c block flags b)
    = snd (maybeAcceptBlock block flags b)
  /\ snd (returned (ProcessBlock c block flags b))
     = snd (fst (maybeAcceptBlock block flags b))
  /\ fst (returned (ProcessBlock c block flags b))
     = match snd (fst (maybeAcceptBlock block flags b)) with
       | Some _ => 0%Z
       | None => fst (fst (maybeAcceptBlock block flags b))
       end.
Proof.
  rewrite ProcessBlock_unfold.
  destruct (HaveBlock (index b) (blockHash block));
    [cbn; intros Hin; no_such_call Hin|].
  destruct (checkBlockSanityContextFree _ _ _ _);
    [cbn; intros Hin; no_such_call Hin|].
  destruct (HaveBlock (index b) (prevOf block));
    [|cbn; intros Hin; no_such_call Hin].
  destruct (isTreasuryAgendaActiveByHash b _) as [e|v];
    [cbn; intros Hin; no_such_call Hin|].
  destruct (checkBlockSanityContextual _ _ _ _ _);
    [cbn; intros Hin; no_such_call Hin|].
  destruct (maybeAcceptBlock block flags b) as [[n [e|]] b']; cbn; auto.
Qed.

(** A block that names its own hash as its parent is never accepted: the
    run ends in an error before the acceptor and the chain state is as it
    was. *)
Theorem self_parent_rejected c block flags b :
  prevOf block = blockHash block ->
  chainAfter (ProcessBlock c block flags b) = b
  /\ (exists e, returned (ProcessBlock c block flags b) = (0%Z, Some e))
  /\ ~ In (EvMaybeAcceptBlock block flags)
         (calls (ProcessBlock c block flags b)).
Proof.
  intros Hself. rewrite ProcessBlock_unfold, Hself.
  destruct (HaveBlock (index b) (blockHash block)).
  - cbn. split; [reflexivity|]. split; [eauto|]. intros Hin. no_such_call Hin.
  - destruct (checkBlockSanityContextFree _ _ _ _); cbn;
      (split; [reflexivity|]); (split; [eauto|]);
      intros Hin; no_such_call Hin.
Qed.

(** [ProcessBlock] takes no decision on the flags itself, it only hands them
    on: when the two sanity checks and the acceptor answer alike under two
    flag values, so does [ProcessBlock]. *)
Theorem flags_are_only_handed_on c block f1 f2 b :
  checkBlockSanityContextFree block (timeSource b) f1 (chainParams b)
    = checkBlockSanityContextFree block (timeSource b) f2 (chainParams b) ->
  (forall v,
     checkBlockSanityContextual block (timeSource b) f1 (chainParams b) v
     = checkBlockSanityContextual block (timeSource b) f2 (chainParams b) v) ->
  maybeAcceptBlock block f1 b = maybeAcceptBlock block f2 b ->
  returned (ProcessBlock c block f1 b) = returned (ProcessBlock c block f2 b)
  /\ chainAfter (ProcessBlock c block f1 b)
     = chainAfter (ProcessBlock c block f2 b).
Proof.
  intros Hcf Hctx Hacc. rewrite !ProcessBlock_unfold, Hcf, Hacc.
  destruct (HaveBlock (index b) (blockHash block)); [auto|].
  destruct (checkBlockSanityContextFree _ _ f2 _); [auto|].
  destruct (HaveBlock (index b) (prevOf block)); [|auto].
  destruct (isTreasuryAgendaActiveByHash b _) as [e|v]; [auto|].
  rewrite Hctx.
  destruct (checkBlockSanityContextual _ _ f2 _ _); [auto|].
  destruct (maybeAcceptBlock block f2 b) as [[n [e|]] b']; auto.
Qed.

End ProcessBlockGuards.

(** ** BehaviorFlags *)

Section FlagFacts.
Import Blockchain.

Lemma flag_bits (n : N) :
  N.testbit BFFastAdd n = N.eqb 0 n /\ N.testbit BFNoPoWCheck n = N.eqb 1 n.
Proof.
  split.
  - change BFFastAdd with (2 ^ 0)%N. apply N.pow2_bits_eqb.
  - change BFNoPoWCheck with (2 ^ 1)%N. apply N.pow2_bits_eqb.
Qed.

(** The two behaviour flags are separate bits of the mask: setting one
    sets it and leaves the test of the other as it was, and [BFNone] sets
    neither. *)
Theorem behavior_flags_are_separate_bits (f : BehaviorFlags) :
  N.land (N.lor f BFFastAdd) BFFastAdd = BFFastAdd
  /\ N.land (N.lor f BFNoPoWCheck) BFNoPoWCheck = BFNoPoWCheck
  /\ N.land (N.lor f BFFastAdd) BFNoPoWCheck = N.land f BFNoPoWCheck
  /\ N.land (N.lor f BFNoPoWCheck) BFFastAdd = N.land f BFFastAdd
  /\ N.lor f BFNone = f
  /\ N.land BFNone BFFastAdd = 0%N /\ N.land BFNone BFNoPoWCheck = 0%N.
Proof.
  repeat split; try reflexivity; try apply N.lor_0_r;
    apply N.bits_inj; intros n;
    rewrite ?N.land_spec, ?N.lor_spec;
    destruct (flag_bits n) as [H0 H1]; rewrite ?H0, ?H1;
    destruct (N.eqb_spec 0 n), (N.eqb_spec 1 n);
    rewrite ?orb_true_r, ?orb_false_r, ?andb_true_r, ?andb_false_r;
    try reflexivity; lia.
Qed.

End FlagFacts.

(** ** ProcessBlock over the Chain Acceptor *)

Section AcceptedBlocks.
Import Blockchain.
Context {TimeSource Params : Type}.
Implicit Types (c : Collaborators TimeSource Params)
  (b : BlockChain TimeSource Params) (block : Block)
  (flags : BehaviorFlags) (idx : gmap Hash blockNode).

Local Abbreviation prevOf block := (PrevBlock (Header (msgBlock block))).

Lemma setMainChain_twice (m m' : bool) (n : blockNode) :
  setMainChain m (setMainChain m' n) = setMainChain m n.
Proof. reflexivity. Qed.

Lemma setMainChain_same (n : blockNode) :
  setMainChain (inMainChain n) n = n.
Proof. now destruct n. Qed.

(** Marking touches the membership flag of an entry and nothing else, and
    neither adds nor drops entries. *)
Lemma markAll_lookup (m : bool) (hs : list Hash) idx (h : Hash)
    (n0 : blockNode) :
  idx !! h = Some n0 ->
  exists m', markAll m hs idx !! h = Some (setMainChain m' n0).
Proof.
  unfold markAll. revert idx n0.
  induction hs as [|x hs IH]; intros idx n0 Hh; cbn [foldl].
  - exists (inMainChain n0). now rewrite setMainChain_same.
  - destruct (decide (x = h)) as [->|Hne].
    + destruct (IH (alter (setMainChain m) h idx) (setMainChain m n0))
        as [m' Hm'].
      { now rewrite lookup_alter_eq, Hh. }
      exists m'. now rewrite Hm', setMainChain_twice.
    + apply IH. now rewrite lookup_alter_ne.
Qed.

Lemma addNode_lookup_old (n : blockNode) idx (h : Hash) (n0 : blockNode) :
  idx !! h = Some n0 -> addNode n idx !! h = Some n0.
Proof.
  intros Hh. unfold addNode.
  destruct (idx !! nodeHash n) eqn:E; [exact Hh|].
  rewrite lookup_insert_ne; [exact Hh|]. intros Heq. congruence.
Qed.

Lemma addNode_lookup_new (n : blockNode) idx :
  is_Some (addNode n idx !! nodeHash n).
Proof.
  unfold addNode. destruct (idx !! nodeHash n) eqn:E.
  - rewrite E. eauto.
  - rewrite lookup_insert_eq. eauto.
Qed.

(** The Chain Acceptor keeps every entry of the index, up to its
    membership flag. *)
Lemma chainAcceptor_keeps CalcWork block flags b (h : Hash)
    (n0 : blockNode) :
  index b !! h = Some n0 ->
  exists m,
    index (snd (chainAcceptor CalcWork block flags b)) !! h
    = Some (setMainChain m n0).
Proof.
  intros Hh.
  assert (Hsame : exists m, index b !! h = Some (setMainChain m n0))
    by (exists (inMainChain n0); now rewrite setMainChain_same).
  unfold chainAcceptor.
  destruct (index b !! prevOf block) as [parent|]; [|exact Hsame].
  destruct (index b !! bestTip b) as [tip|]; [|exact Hsame].
  destruct (bool_decide _).
  { cbn [snd withChain index]. exists (inMainChain n0).
    rewrite setMainChain_same. now apply addNode_lookup_old. }
  destruct (commonAncestor _ _ _) as [fork|]; [|exact Hsame].
  destruct (_ <? _)%Z; cbn [snd withChain index].
  - unfold reorganizeChain.
    destruct (markAll_lookup false
                (aboveFork fork (chainOf
                   (addNode (newBlockNode CalcWork parent block) (index b))
                   (bestTip b)))
                (addNode (newBlockNode CalcWork parent block) (index b))
                h n0) as [m1 Hm1].
    { now apply addNode_lookup_old. }
    destruct (markAll_lookup true
                (rev (aboveFork fork (chainOf
                   (addNode (newBlockNode CalcWork parent block) (index b))
                   (blockHash block))))
                _ h _ Hm1) as [m2 Hm2].
    exists m2. now rewrite Hm2, setMainChain_twice.
  - exists (inMainChain n0). rewrite setMainChain_same.
    now apply addNode_lookup_old.
Qed.

(** A block the Chain Acceptor accepts is in the index afterwards. *)
Lemma chainAcceptor_inserts CalcWork block flags b n b' :
  chainAcceptor CalcWork block flags b = ((n, None), b') ->
  is_Some (index b' !! blockHash block).
Proof.
  unfold chainAcceptor.
  destruct (index b !! prevOf block) as [parent|]; [|discriminate].
  destruct (index b !! bestTip b) as [tip|]; [|discriminate].
  destruct (bool_decide _).
  { intros [= _ <-]. cbn [withChain index].
    apply (addNode_lookup_new (setMainChain true
                                 (newBlockNode CalcWork parent block))). }
  destruct (commonAncestor _ _ _) as [fork|]; [|discriminate].
  pose proof (addNode_lookup_new (newBlockNode CalcWork parent block)
                (index b)) as [n1 Hn1].
  cbn [nodeHash newBlockNode] in Hn1.
  destruct (_ <? _)%Z; intros [= _ <-]; cbn [withChain index].
  - unfold reorganizeChain.
    destruct (markAll_lookup false
                (aboveFork fork (chainOf
                   (addNode (newBlockNode CalcWork parent block) (index b))
                   (bestTip b))) _ _ _ Hn1) as [m1 Hm1].
    destruct (markAll_lookup true
                (rev (aboveFork fork (chainOf
                   (addNode (newBlockNode CalcWork parent block) (index b))
                   (blockHash block)))) _ _ _ Hm1) as [m2 Hm2].
    rewrite Hm2. eauto.
  - rewrite Hn1. eauto.
Qed.

(** With the Chain Acceptor, a block that was accepted is refused as a
    duplicate when it is presented again, under any flags, and that second
    call changes nothing. *)
Theorem accepted_block_is_duplicate_next CalcWork c block flags flags'
    b n b' t :
  ProcessBlock (withChainAcceptor CalcWork c) block flags b
    = ((n, None), b', t) ->
  ProcessBlock (withChainAcceptor CalcWork c) block flags' b'
  = ((0%Z, Some (duplicateBlockError block)), b',
     [EvHaveBlock (blockHash block)]).
Proof.
  intros Hrun.
  assert (Hacc : chainAcceptor CalcWork block flags b = ((n, None), b')).
  { revert Hrun. rewrite ProcessBlock_unfold.
    cbn [maybeAcceptBlock withChainAcceptor].
    destruct (HaveBlock (index b) (blockHash block)); [discriminate|].
    destruct (checkBlockSanityContextFree _ _ _ _); [discriminate|].
    destruct (HaveBlock (index b) (prevOf block)); [|discriminate].
    destruct (isTreasuryAgendaActiveByHash b _) as [e|v]; [discriminate|].
    destruct (checkBlockSanityContextual _ _ _ _ _); [discriminate|].
    destruct (chainAcceptor CalcWork block flags b) as [[m [e|]] b''];
      [discriminate|].
    now intros [= -> -> _]. }
  rewrite ProcessBlock_unfold.
  now rewrite (HaveBlock_true _ _ (chainAcceptor_inserts _ _ _ _ _ _ Hacc)).
Qed.

(** What a successful run says about the acceptor and the index before. *)
Lemma ProcessBlock_success c block flags b n b' t :
  ProcessBlock c block flags b = ((n, None), b', t) ->
  index b !! blockHash block = None
  /\ maybeAcceptBlock block flags b = ((n, None), b').
Proof.
  rewrite ProcessBlock_unfold.
  destruct (HaveBlock (index b) (blockHash block)) eqn:Hh; [discriminate|].
  apply HaveBlock_false in Hh.
  destruct (checkBlockSanityContextFree _ _ _ _); [discriminate|].
  destruct (HaveBlock (index b) (prevOf block)); [|discriminate].
  destruct (isTreasuryAgendaActiveByHash b _) as [e|v]; [discriminate|].
  destruct (checkBlockSanityContextual _ _ _ _ _); [discriminate|].
  destruct (maybeAcceptBlock block flags b) as [[m [e|]] b''];
    [discriminate|].
  intros [= -> -> _]. auto.
Qed.

(** With the Chain Acceptor, a block that is accepted is entered under its
    hash with its parent's hash, one more than its parent's height and its
    parent's cumulative work plus its own, whichever chain it lands on; and
    the best tip is an entry of the index afterwards. *)
Theorem accepted_block_is_entered CalcWork c block flags b n b' t
    (parent : blockNode) :
  ProcessBlock (withChainAcceptor CalcWork c) block flags b
    = ((n, None), b', t) ->
  index b !! prevOf block = Some parent ->
  (exists m,
     index b' !! blockHash block
     = Some (setMainChain m (newBlockNode CalcWork parent block)))
  /\ is_Some (index b' !! bestTip b').
Proof.
  intros Hrun Hparent.
  apply ProcessBlock_success in Hrun as [Hnew Hacc].
  cbn [maybeAcceptBlock withChainAcceptor] in Hacc.
  revert Hacc. unfold chainAcceptor. rewrite Hparent.
  destruct (index b !! bestTip b) as [tip|] eqn:Htip; [|discriminate].
  assert (Hadd : forall nd, nodeHash nd = blockHash block ->
                 addNode nd (index b) !! blockHash block = Some nd).
  { intros nd Hnd. unfold addNode. rewrite Hnd, Hnew.
    apply lookup_insert_eq. }
  destruct (bool_decide _).
  { intros [= _ <-]. cbn [withChain index bestTip].
    rewrite Hadd by reflexivity. eauto. }
  destruct (commonAncestor _ _ _) as [fork|]; [|discriminate].
  destruct (_ <? _)%Z; intros [= _ <-]; cbn [withChain index bestTip].
  - unfold reorganizeChain.
    destruct (markAll_lookup false
                (aboveFork fork (chainOf
                   (addNode (newBlockNode CalcWork parent block) (index b))
                   (bestTip b))) _ _ _
                (Hadd (newBlockNode CalcWork parent block) eq_refl))
      as [m1 Hm1].
    destruct (markAll_lookup true
                (rev (aboveFork fork (chainOf
                   (addNode (newBlockNode CalcWork parent block) (index b))
                   (blockHash block)))) _ _ _ Hm1) as [m2 Hm2].
    rewrite Hm2, setMainChain_twice. eauto.
  - split.
    + exists false.
      exact (Hadd (newBlockNode CalcWork parent block) eq_refl).
    + rewrite (addNode_lookup_old _ _ _ _ Htip). eauto.
Qed.

(** With the Chain Acceptor, [ProcessBlock] never drops an entry of the
    index and never changes the hash, parent, height or cumulative work of
    one: whatever the outcome, an entry known before is known afterwards
    and differs at most in its chain membership. *)
Theorem known_blocks_stay_known CalcWork c block flags b (h : Hash)
    (n0 : blockNode) :
  index b !! h = Some n0 ->
  exists m,
    index (chainAfter
             (ProcessBlock (withChainAcceptor CalcWork c) block flags b))
      !! h
    = Some (setMainChain m n0).
Proof.
  intros Hh.
  assert (Hsame : exists m, index b !! h = Some (setMainChain m n0))
    by (exists (inMainChain n0); now rewrite setMainChain_same).
  pose proof (chainAcceptor_keeps CalcWork block flags b h n0 Hh) as Hkeep.
  rewrite ProcessBlock_unfold. cbn [maybeAcceptBlock withChainAcceptor].
  destruct (HaveBlock (index b) (blockHash block)); [exact Hsame|].
  destruct (checkBlockSanityContextFree _ _ _ _); [exact Hsame|].
  destruct (HaveBlock (index b) (prevOf block)); [|exact Hsame].
  destruct (isTreasuryAgendaActiveByHash b _) as [e|v]; [exact Hsame|].
  destruct (checkBlockSanityContextual _ _ _ _ _); [exact Hsame|].
  destruct (chainAcceptor CalcWork block flags b) as [[m [e|]] b''];
    exact Hkeep.
Qed.

End AcceptedBlocks.

(** ** More on the hex encoding and on hashes *)

Section HexMore.
Import Hex Chainhash CodecTest.

(** Strings, two characters at a time. *)
Lemma string_pair_ind (P : string -> Prop) :
  P EmptyString ->
  (forall a, P (String a EmptyString)) ->
  (forall a b s, P s -> P (String a (String b s))) ->
  forall s, P s.
Proof.
  intros H0 H1 H2 s.
  enough (P s /\ forall a, P (String a s)) by tauto.
  induction s as [|x s [IHs IHx]]; split; auto.
Qed.

(** Decoding a hex encoding gives the bytes back, so that different byte
    sequences have different encodings. *)
Theorem hex_decode_encode (bs bs' : list byte) :
  DecodeString (EncodeToString bs) = Some bs
  /\ (EncodeToString bs = EncodeToString bs' -> bs = bs').
Proof.
  split; [apply DecodeString_EncodeToString|].
  intros Heq. apply (f_equal DecodeString) in Heq.
  rewrite !DecodeString_EncodeToString in Heq. now injection Heq.
Qed.

Lemma hex_lengths_decode (s : string) (bs : list byte) :
  DecodeString s = Some bs -> String.length s = 2 * length bs.
Proof.
  revert bs. induction s as [|a|a b s IH] using string_pair_ind; intros bs.
  - now intros [= <-].
  - discriminate.
  - cbn [DecodeString].
    destruct (fromHexChar a); [|discriminate].
    destruct (fromHexChar b); [|discriminate].
    destruct (Byte.of_N _); [|discriminate].
    destruct (DecodeString s) as [r|]; [|discriminate].
    intros [= <-]. cbn [String.length length].
    rewrite (IH r eq_refl). lia.
Qed.

(** A hex string that decodes has two characters for each byte decoded; in
    particular no string of odd length decodes.  An encoding is twice as
    long as the bytes encoded. *)
Theorem hex_lengths (s : string) (bs : list byte) :
  String.length (EncodeToString bs) = 2 * length bs
  /\ (DecodeString s = Some bs -> String.length s = 2 * length bs).
Proof.
  split.
  - induction bs as [|b bs IH]; [reflexivity|].
    cbn [EncodeToString String.length length]. rewrite IH. lia.
  - apply hex_lengths_decode.
Qed.

(** [decodeHash] undoes [Hash.String] on every hash, and whatever it
    returns has the width of a hash. *)
Theorem decodeHash_of_HashString (h h' : Hash) (s : string) :
  (wfHash h -> decodeHash (HashString h) = Some h)
  /\ (decodeHash s = Some h' -> wfHash h').
Proof.
  unfold decodeHash, HashString, NewHash, wfHash. split.
  - intros Hh. rewrite DecodeString_EncodeToString, rev_involutive, Hh.
    reflexivity.
  - destruct (DecodeString s) as [bs|]; [|discriminate].
    destruct (Nat.eqb_spec (length (rev bs)) HashSize) as [Hlen|];
      [|discriminate].
    now intros [= <-].
Qed.

End HexMore.

(** ** What the vote-bits tests fix, and what the decoders keep *)

Section CodecMore.
Import Codec CodecTest.

Lemma length_putLE (w : nat) (v : N) : length (putLE w v) = w.
Proof.
  revert v. induction w as [|w IH]; intros v; [reflexivity|].
  cbn [putLE length]. now rewrite IH.
Qed.

Lemma length_encodeRecord (w : nat) (vb : VoteBits) :
  length (encodeRecord w vb) = w + 2 + length (ExtendedBits vb).
Proof.
  unfold encodeRecord. rewrite !length_app, !length_putLE. lia.
Qed.

(** Among the encoders that write the record length as a little-endian
    integer of any width, the only one [TestEncodeConcatenatedVoteBits]
    lets through is the one with a single length byte. *)
Theorem encode_test_fixes_prefix_width (w : nat) :
  TestEncodeConcatenatedVoteBits (encodeVoteBitsWith w) = true <-> w = 1.
Proof.
  split; [|intros ->; vm_compute; reflexivity].
  unfold TestEncodeConcatenatedVoteBits, encodeVoteBitsWith.
  change (forallb _ testVbs) with true. cbv iota.
  rewrite DecodeString_EncodeToString.
  intros [Hbytes _]%andb_prop. apply bool_decide_eq_true in Hbytes.
  injection Hbytes as Hbytes. apply (f_equal (@length byte)) in Hbytes.
  unfold testVbs in Hbytes. cbn [map concat] in Hbytes.
  rewrite !length_app, !length_encodeRecord in Hbytes.
  cbn in Hbytes. lia.
Qed.

(** Cutting into hashes loses nothing when the bytes are a whole number of
    hashes. *)
Lemma splitHashes_exact (k fuel : nat) (bs : list byte) :
  length bs = HashSize * k -> length bs <= fuel ->
  Forall wfHash (splitHashes fuel bs) /\ concat (splitHashes fuel bs) = bs.
Proof.
  revert fuel bs. induction k as [|k IH]; intros fuel bs Hlen Hfuel.
  - rewrite Nat.mul_0_r in Hlen. apply nil_length_inv in Hlen as ->.
    destruct fuel; cbn; auto.
  - destruct fuel as [|fuel]; [unfold HashSize in Hlen; lia|].
    destruct bs as [|x bs]; [discriminate Hlen|].
    cbn [splitHashes].
    destruct (IH fuel (skipn HashSize (x :: bs))) as [Hwf Hcat].
    + rewrite length_drop, Hlen. unfold HashSize. lia.
    + rewrite length_drop. unfold HashSize in *. lia.
    + split.
      * constructor; [|exact Hwf]. unfold wfHash.
        rewrite length_take, Hlen. unfold HashSize. lia.
      * cbn [concat]. rewrite Hcat. apply take_drop.
Qed.

(** Whenever the hash decoder succeeds, every hash it returns has the full
    width and the hashes, put end to end, are exactly the bytes of the
    input: no partial hash is returned and no byte is dropped. *)
Theorem decoded_hashes_are_exact (s : string) (hs : list Hash) :
  DecodeConcatenatedHashes s = inr hs ->
  Forall wfHash hs
  /\ Hex.DecodeString s = Some (concat hs)
  /\ String.length s = 2 * HashSize * length hs.
Proof.
  unfold DecodeConcatenatedHashes.
  destruct (Hex.DecodeString s) as [bs|] eqn:Hdec; [|discriminate].
  destruct (Nat.eqb_spec (length bs `mod` HashSize) 0) as [Hmod|];
    [|discriminate].
  intros [= <-].
  assert (Hlen : length bs = HashSize * (length bs / HashSize)).
  { pose proof (Nat.div_mod_eq (length bs) HashSize). lia. }
  destruct (splitHashes_exact _ (length bs) bs Hlen (Nat.le_refl _))
    as [Hwf Hcat].
  split; [exact Hwf|]. split; [now rewrite Hcat|].
  rewrite (hex_lengths_decode s bs Hdec).
  rewrite <- Hcat at 1. rewrite (length_concat_hashes _ Hwf). lia.
Qed.

Lemma byteOfN_to_N (p : byte) : byteOfN (Byte.to_N p) = p.
Proof.
  unfold byteOfN. pose proof (Byte.to_N_bounded p).
  rewrite N.mod_small by lia. now rewrite Byte.of_to_N.
Qed.

Lemma putLE_getLE_2 (b0 b1 : byte) : putLE 2 (getLE [b0; b1]) = [b0; b1].
Proof.
  pose proof (Byte.to_N_bounded b0). pose proof (Byte.to_N_bounded b1).
  cbn [putLE getLE]. rewrite N.mul_0_r, N.add_0_r.
  assert (Hq : ((Byte.to_N b0 + 256 * Byte.to_N b1) / 256 = Byte.to_N b1)%N).
  { symmetry. apply (N.div_unique _ 256 _ (Byte.to_N b0)); lia. }
  assert (Hr : ((Byte.to_N b0 + 256 * Byte.to_N b1) mod 256 = Byte.to_N b0)%N).
  { symmetry. apply (N.mod_unique _ 256 (Byte.to_N b1)); lia. }
  unfold byteOfN at 1. rewrite Hr, Byte.of_to_N, Hq.
  now rewrite byteOfN_to_N.
Qed.

(** The records the decoder returns are the input, record for record. *)
Lemma decodeRecords_exact (fuel : nat) (bs : list byte)
    (l : list VoteBits) :
  decodeRecords 1 fuel bs = inr l ->
  encodeAll l = bs /\ Forall wfBits l.
Proof.
  revert bs l. induction fuel as [|fuel IH]; intros bs l.
  - destruct bs; [|discriminate]. intros [= <-]. split; [reflexivity|constructor].
  - destruct bs as [|p body]; [intros [= <-]; split; [reflexivity|constructor]|].
    rewrite decodeRecords_cons. cbn zeta.
    pose proof (Byte.to_N_bounded p) as Hp.
    destruct (Nat.ltb_spec (N.to_nat (Byte.to_N p)) 2) as [|Hlen2];
      [discriminate|].
    destruct (Nat.ltb_spec (length body) (N.to_nat (Byte.to_N p)))
      as [|Hbody]; [discriminate|].
    destruct (decodeRecords 1 fuel (skipn (N.to_nat (Byte.to_N p)) body))
      as [e|rest] eqn:Hrest; [discriminate|].
    intros [= <-]. destruct (IH _ _ Hrest) as [Hbytes Hbits].
    destruct body as [|b0 [|b1 body]]; [cbn in Hbody; lia..|].
    cbn [firstn skipn]. rewrite take_0, drop_0. split.
    + unfold encodeAll in *. cbn [map concat]. rewrite Hbytes.
      unfold encodeRecord. cbn [Bits ExtendedBits].
      rewrite putLE_getLE_2.
      cbn [length] in Hbody.
      rewrite length_take_le by lia.
      replace (2 + N.of_nat (N.to_nat (Byte.to_N p) - 2))%N
        with (Byte.to_N p) by lia.
      cbn [putLE app]. rewrite byteOfN_to_N. do 3 f_equal.
      replace (N.to_nat (Byte.to_N p)) with (2 + (N.to_nat (Byte.to_N p) - 2))
        at 2 by lia.
      cbn [Nat.add skipn]. apply take_drop.
    + constructor; [|exact Hbits]. unfold wfBits. cbn [Bits getLE].
      pose proof (Byte.to_N_bounded b0). pose proof (Byte.to_N_bounded b1).
      lia.
Qed.

(** Whenever the vote-bits decoder succeeds, writing the records it returns
    one after the other (length byte, Bits, ExtendedBits) gives back exactly
    the bytes of the input, and every Bits value fits sixteen bits: nothing
    of the input is skipped, cut short or left over. *)
Theorem decoded_vote_bits_are_exact (s : string) (l : list VoteBits) :
  DecodeConcatenatedVoteBits s = inr l ->
  Hex.DecodeString s = Some (encodeAll l) /\ Forall wfBits l.
Proof.
  unfold DecodeConcatenatedVoteBits, decodeVoteBitsWith.
  destruct (Hex.DecodeString s) as [bs|]; [|discriminate].
  intros Hdec. destruct (decodeRecords_exact _ _ _ Hdec) as [-> Hbits].
  auto.
Qed.

End CodecMore.

(** ** The further properties on the chain A1..A3, B1..B3 and on the test data *)

Section MoreScenarios.
Import Codec CodecTest Blockchain Scenario.

Lemma acceptor_called_only_after_all_checks_witness :
  In (EvMaybeAcceptBlock blockB3 BFNone)
    (calls (ProcessBlock lenient blockB3 BFNone chainAB))
  /\ index chainAB !! B3 = None
  /\ is_Some (index chainAB !! B2).
Proof.
  assert (Hin : In (EvMaybeAcceptBlock blockB3 BFNone)
                  (calls (ProcessBlock lenient blockB3 BFNone chainAB)))
    by (vm_compute; do 5 right; left; reflexivity).
  split; [exact Hin|].
  destruct (acceptor_called_only_after_all_checks lenient blockB3 BFNone
              chainAB blockB3 BFNone Hin) as (_ & _ & Hnew & Hparent & _).
  split; [exact Hnew|exact Hparent].
Defined.

Lemma no_change_without_acceptor_witness :
  ~ In (EvMaybeAcceptBlock orphan BFNone)
      (calls (ProcessBlock lenient orphan BFNone chainAB))
  /\ chainAfter (ProcessBlock lenient orphan BFNone chainAB) = chainAB.
Proof.
  assert (Hnot : ~ In (EvMaybeAcceptBlock orphan BFNone)
                     (calls (ProcessBlock lenient orphan BFNone chainAB))).
  { vm_compute. intros [H|[H|[H|[]]]]; discriminate H. }
  split; [exact Hnot|].
  exact (proj1 (no_change_without_acceptor lenient orphan BFNone chainAB Hnot)).
Defined.

Lemma success_is_the_acceptors_witness :
  snd (returned (ProcessBlock lenient blockB3 BFNone chainAB)) = None
  /\ maybeAcceptBlock (Collaborators := lenient) blockB3 BFNone chainAB
     = (returned (ProcessBlock lenient blockB3 BFNone chainAB),
        chainAfter (ProcessBlock lenient blockB3 BFNone chainAB)).
Proof.
  assert (Hok : snd (returned (ProcessBlock lenient blockB3 BFNone chainAB))
                = None) by (vm_compute; reflexivity).
  split; [exact Hok|].
  exact (proj2 (success_is_the_acceptors lenient blockB3 BFNone chainAB Hok)).
Defined.

Lemma acceptor_state_is_kept_witness :
  In (EvMaybeAcceptBlock blockB3 BFNone)
    (calls (ProcessBlock faulty blockB3 BFNone chainAB))
  /\ bestTip chainAB = A3
  /\ bestTip (chainAfter (ProcessBlock faulty blockB3 BFNone chainAB)) = B3
  /\ returned (ProcessBlock faulty blockB3 BFNone chainAB)
     = (0%Z, Some malformed).
Proof.
  assert (Hin : In (EvMaybeAcceptBlock blockB3 BFNone)
                  (calls (ProcessBlock faulty blockB3 BFNone chainAB)))
    by (vm_compute; do 5 right; left; reflexivity).
  split; [exact Hin|]. split; [vm_compute; reflexivity|].
  destruct (acceptor_state_is_kept faulty blockB3 BFNone chainAB Hin)
    as (Hstate & Herr & Hlen).
  split; [rewrite Hstate; reflexivity|].
  rewrite (surjective_pairing
             (returned (ProcessBlock faulty blockB3 BFNone chainAB))).
  rewrite Herr, Hlen. reflexivity.
Defined.

Lemma self_parent_rejected_witness :
  PrevBlock (Header (msgBlock selfParent)) = blockHash selfParent
  /\ chainAfter (ProcessBlock lenient selfParent BFNone chainAB) = chainAB.
Proof.
  split; [reflexivity|].
  exact (proj1 (self_parent_rejected lenient selfParent BFNone chainAB
                  eq_refl)).
Defined.

Lemma flags_are_only_handed_on_witness :
  returned (ProcessBlock lenient blockB3 BFFastAdd chainAB)
  = returned (ProcessBlock lenient blockB3 BFNoPoWCheck chainAB)
  /\ chainAfter (ProcessBlock lenient blockB3 BFFastAdd chainAB)
     = chainAfter (ProcessBlock lenient blockB3 BFNoPoWCheck chainAB).
Proof.
  apply (flags_are_only_handed_on lenient blockB3 BFFastAdd BFNoPoWCheck
           chainAB); [reflexivity|intros v; reflexivity|reflexivity].
Defined.

Lemma accepted_block_is_duplicate_next_witness :
  returned (ProcessBlock (withChainAcceptor CalcWork lenient) blockB3
              BFFastAdd (after blockB3 chainAB))
  = (0%Z, Some (duplicateBlockError blockB3)).
Proof.
  rewrite (accepted_block_is_duplicate_next CalcWork lenient blockB3 BFNone
             BFFastAdd chainAB 3%Z (after blockB3 chainAB)
             (allCalls blockB3 BFNone false)); [reflexivity|].
  vm_compute. reflexivity.
Defined.

Lemma known_blocks_stay_known_witness :
  index chainAB !! A3
    = Some {| nodeHash := A3; parentHash := A2; height := 3; workSum := 30;
              inMainChain := true |}
  /\ exists m,
       index (chainAfter (ProcessBlock (withChainAcceptor CalcWork lenient)
                            blockB3 BFNone chainAB)) !! A3
       = Some {| nodeHash := A3; parentHash := A2; height := 3;
                 workSum := 30; inMainChain := m |}.
Proof.
  assert (Hh : index chainAB !! A3
               = Some {| nodeHash := A3; parentHash := A2; height := 3;
                         workSum := 30; inMainChain := true |})
    by (vm_compute; reflexivity).
  split; [exact Hh|].
  exact (known_blocks_stay_known CalcWork lenient blockB3 BFNone chainAB
           A3 _ Hh).
Defined.

Lemma accepted_block_is_entered_witness :
  (exists m,
     index (after blockB3 chainAB) !! B3
     = Some {| nodeHash := B3; parentHash := B2; height := 4; workSum := 40;
               inMainChain := m |})
  /\ is_Some (index (after blockB3 chainAB) !! bestTip (after blockB3 chainAB)).
Proof.
  apply (accepted_block_is_entered CalcWork lenient blockB3 BFNone chainAB
           3%Z (after blockB3 chainAB) (allCalls blockB3 BFNone false)
           {| nodeHash := B2; parentHash := B1; height := 3; workSum := 30;
              inMainChain := false |});
    vm_compute; reflexivity.
Defined.

Lemma hex_decode_encode_witness :
  Hex.DecodeString (Hex.EncodeToString [x0a; xff]) = Some [x0a; xff]
  /\ [x0a; xff] = [x0a; xff].
Proof.
  destruct (hex_decode_encode [x0a; xff] [x0a; xff]) as [Hdec Hinj].
  split; [exact Hdec|exact (Hinj eq_refl)].
Defined.

Lemma hex_lengths_witness :
  Hex.DecodeString "0aFf" = Some [x0a; xff]
  /\ String.length "0aFf" = 2 * length [x0a; xff].
Proof.
  assert (Hdec : Hex.DecodeString "0aFf" = Some [x0a; xff]) by reflexivity.
  split; [exact Hdec|].
  exact (proj2 (hex_lengths "0aFf" [x0a; xff]) Hdec).
Defined.

Lemma decodeHash_of_HashString_witness :
  wfHash A1 /\ decodeHash (HashString A1) = Some A1.
Proof.
  assert (Hwf : wfHash A1) by reflexivity.
  split; [exact Hwf|].
  exact (proj1 (decodeHash_of_HashString A1 A1 EmptyString) Hwf).
Defined.

Lemma encode_test_fixes_prefix_width_witness :
  TestEncodeConcatenatedVoteBits (encodeVoteBitsWith 1) = true.
Proof.
  exact (proj2 (encode_test_fixes_prefix_width 1) eq_refl).
Defined.

Lemma decoded_hashes_are_exact_witness :
  DecodeConcatenatedHashes (Hex.EncodeToString (concat testHashes))
    = inr testHashes
  /\ Forall wfHash testHashes.
Proof.
  assert (Hdec : DecodeConcatenatedHashes
                   (Hex.EncodeToString (concat testHashes))
                 = inr testHashes) by (vm_compute; reflexivity).
  split; [exact Hdec|].
  exact (proj1 (decoded_hashes_are_exact _ _ Hdec)).
Defined.

Lemma decoded_vote_bits_are_exact_witness :
  DecodeConcatenatedVoteBits (Hex.EncodeToString encodedBytes)
    = inr expectedVbs
  /\ Forall wfBits expectedVbs.
Proof.
  assert (Hdec : DecodeConcatenatedVoteBits (Hex.EncodeToString encodedBytes)
                 = inr expectedVbs) by (vm_compute; reflexivity).
  split; [exact Hdec|].
  exact (proj2 (decoded_vote_bits_are_exact _ _ Hdec)).
Defined.

End MoreScenarios.
